(** * Segment layers of the conversation view

    A shallow embedding of [app/src/c/converse/segments/segment_layer.c]:
    the classification of a conversation entry into a segment type, and the
    create / update / destroy / get_entry operations that dispatch on it.

    The C code runs against three collaborators that are not part of the
    file: the conversation data model, the concrete child views (message,
    info and the widgets) and the generic layer toolkit.  They are modelled
    as operations on an explicit [World]; every call that reads the data
    model, writes a log line or changes the view tree is also recorded, in
    order, in the list of [Call]s an operation produces. *)

From stdpp Require Import gmap strings list fin_maps.
From Stdlib Require Import ZArith.

Set Warnings "-clear-no-such-hyp".

(** ** Pointers *)

(** A C pointer is an address; [NULL] is address 0. *)
Abbreviation ptr := N.

Definition NULL : ptr := 0%N.

(** The truth value of a pointer used as a C condition. *)
Definition is_set (p : ptr) : bool := negb (p =? NULL)%N.

(** ** Geometry *)

(** Modelled from the spec: the rectangle geometry of the display toolkit
    ([GPoint], [GSize], [GRect] and the [GRect(x, y, w, h)] initialiser of
    pebble.h, which is absent).  A frame is an origin and a size.  The
    coordinates are [int16_t] fields; they are held as integers, and where
    the code computes with them the narrowing to 16 bits is written out. *)
Record GPoint := { x : Z; y : Z }.

Record GSize := { w : Z; h : Z }.

Record GRect := { origin : GPoint; size : GSize }.

Definition GRectOf (x0 y0 w0 h0 : Z) : GRect :=
  {| origin := {| x := x0; y := y0 |}; size := {| w := w0; h := h0 |} |}.

Definition GRectZero : GRect := GRectOf 0 0 0 0.

(** The value an [int] has once it is stored in an [int16_t] field: it
    wraps around into -32768 .. 32767. *)
Definition int16 (z : Z) : Z := ((z + 32768) mod 65536 - 32768)%Z.

Arguments int16 : simpl never.

(** [#define NAME_HEIGHT 20] *)
Definition NAME_HEIGHT : Z := 20.

(** ** The conversation data model *)

(** Modelled from the spec: the entry types of conversation.h, which is
    absent.  The enumerators are the ones the source names; [EntryTypeOther]
    stands for any other integer the C enum can hold. *)
Inductive EntryType :=
| EntryTypeDeleted
| EntryTypePrompt
| EntryTypeResponse
| EntryTypeThought
| EntryTypeError
| EntryTypeAction
| EntryTypeWidget
| EntryTypeOther (code : Z).

(** Modelled from the spec: the widget sub-types of conversation.h, which is
    absent; [ConversationWidgetTypeOther] is any other integer. *)
Inductive ConversationWidgetType :=
| ConversationWidgetTypeWeatherSingleDay
| ConversationWidgetTypeWeatherCurrent
| ConversationWidgetTypeWeatherMultiDay
| ConversationWidgetTypeTimer
| ConversationWidgetTypeNumber
| ConversationWidgetTypeMap
| ConversationWidgetTypeOther (code : Z).

(** The widget descriptor; only its [type] field is read by this file. *)
Record ConversationWidget := { widget_type : ConversationWidgetType }.

(** What the two accessors of an entry report.  [entry_widget] is what
    [conversation_entry_get_widget] hands back; the data model gives it a
    meaning only for widget entries. *)
Record ConversationEntry := {
  entry_type : EntryType;
  entry_widget : ConversationWidget
}.

(** ** Segment types and segment data *)

Inductive SegmentType :=
| SegmentTypeNone
| SegmentTypeMessage
| SegmentTypeInfo
| SegmentTypeWeatherSingleDayWidget
| SegmentTypeWeatherCurrentWidget
| SegmentTypeWeatherMultiDayWidget
| SegmentTypeTimerWidget
| SegmentTypeNumberWidget
| SegmentTypeMapWidget.

(** The concrete child views, one per member of the union in
    [SegmentLayerData] (apart from the generic [layer] member). *)
Inductive View :=
| InfoLayer
| MessageLayer
| WeatherSingleDayWidget
| WeatherCurrentWidget
| WeatherMultiDayWidget
| TimerWidget
| NumberWidget
| MapWidget.

(** [SegmentLayerData].  Every member of the C union is a layer pointer, so
    the union is the single field [layer]. *)
Record SegmentLayerData := {
  entry : ptr;
  assistant_label_layer : ptr;
  type : SegmentType;
  layer : ptr
}.

Definition set_entry (v : ptr) (d : SegmentLayerData) : SegmentLayerData :=
  {| entry := v; assistant_label_layer := assistant_label_layer d;
     type := type d; layer := layer d |}.

Definition set_assistant_label_layer (v : ptr) (d : SegmentLayerData) : SegmentLayerData :=
  {| entry := entry d; assistant_label_layer := v;
     type := type d; layer := layer d |}.

Definition set_type (v : SegmentType) (d : SegmentLayerData) : SegmentLayerData :=
  {| entry := entry d; assistant_label_layer := assistant_label_layer d;
     type := v; layer := layer d |}.

Definition set_layer (v : ptr) (d : SegmentLayerData) : SegmentLayerData :=
  {| entry := entry d; assistant_label_layer := assistant_label_layer d;
     type := type d; layer := v |}.

(** A cleared data block: null pointers and the first enumerator. *)
Definition zero_data : SegmentLayerData :=
  {| entry := NULL; assistant_label_layer := NULL;
     type := SegmentTypeNone; layer := NULL |}.

(** ** The view tree *)

(** One toolkit object.  Segment layers, text layers and child views are all
    layers: a frame, the attached children, the text (of a text layer), the
    entry a child view was built for, and the data block (of a layer created
    with data). *)
Record Layer := {
  frame : GRect;
  children : list ptr;
  text : string;
  subject : ptr;
  data : SegmentLayerData
}.

Definition new_layer (rect : GRect) (e : ptr) : Layer :=
  {| frame := rect; children := []; text := ""; subject := e; data := zero_data |}.

Definition with_frame (r : GRect) (l : Layer) : Layer :=
  {| frame := r; children := children l; text := text l;
     subject := subject l; data := data l |}.

Definition with_child (c : ptr) (l : Layer) : Layer :=
  {| frame := frame l; children := children l ++ [c]; text := text l;
     subject := subject l; data := data l |}.

Definition without_child (c : ptr) (l : Layer) : Layer :=
  {| frame := frame l; children := filter (λ k, k ≠ c) (children l);
     text := text l; subject := subject l; data := data l |}.

Definition with_text (s : string) (l : Layer) : Layer :=
  {| frame := frame l; children := children l; text := s;
     subject := subject l; data := data l |}.

Definition with_data (f : SegmentLayerData → SegmentLayerData) (l : Layer) : Layer :=
  {| frame := frame l; children := children l; text := text l;
     subject := subject l; data := f (data l) |}.

(** The state the code runs in: the conversation entries behind their
    pointers, and the live toolkit objects behind theirs. *)
Record World := {
  conversation : ptr → ConversationEntry;
  heap : gmap N Layer
}.

Definition with_heap (u : World) (m : gmap N Layer) : World :=
  {| conversation := conversation u; heap := m |}.

Definition with_conversation (u : World) (c : ptr → ConversationEntry) : World :=
  {| conversation := c; heap := heap u |}.

(** ** Recorded calls *)

Inductive AppLogLevel :=
| APP_LOG_LEVEL_ERROR
| APP_LOG_LEVEL_WARNING
| APP_LOG_LEVEL_INFO
| APP_LOG_LEVEL_DEBUG
| APP_LOG_LEVEL_DEBUG_VERBOSE.

(** The argument of a log line: an entry type printed with %d, or a layer
    printed with %p. *)
Inductive LogArg :=
| LogEntryType (t : EntryType)
| LogPointer (p : ptr).

Inductive Call :=
| conversation_entry_get_type_call (e : ptr)
| conversation_entry_get_widget_call (e : ptr)
| BOBBY_LOG_call (level : AppLogLevel) (fmt : string) (arg : LogArg)
| blayer_create_with_data_call (rect : GRect) (result : ptr)
| btext_layer_create_call (rect : GRect) (result : ptr)
| text_layer_set_text_call (t : ptr) (s : string)
| text_layer_destroy_call (t : ptr)
| layer_add_child_call (parent child : ptr)
| layer_set_frame_call (l : ptr) (r : GRect)
| layer_destroy_call (l : ptr)
| view_create_call (v : View) (child_frame : GRect) (e : ptr) (result : ptr)
| view_update_call (v : View) (p : ptr)
| view_destroy_call (v : View) (p : ptr).

Definition is_get_widget (c : Call) : bool :=
  match c with conversation_entry_get_widget_call _ => true | _ => false end.

Definition is_get_type (c : Call) : bool :=
  match c with conversation_entry_get_type_call _ => true | _ => false end.

Definition is_log (c : Call) : bool :=
  match c with BOBBY_LOG_call _ _ _ => true | _ => false end.

Definition is_view_create (c : Call) : bool :=
  match c with view_create_call _ _ _ _ => true | _ => false end.

Definition is_label_create (c : Call) : bool :=
  match c with btext_layer_create_call _ _ => true | _ => false end.

(** The objects a call releases. *)
Definition released (c : Call) : list ptr :=
  match c with
  | text_layer_destroy_call p | layer_destroy_call p | view_destroy_call _ p => [p]
  | _ => []
  end.

(** The objects a call allocates. *)
Definition allocated (c : Call) : list ptr :=
  match c with
  | blayer_create_with_data_call _ p | btext_layer_create_call _ p
  | view_create_call _ _ _ p => [p]
  | _ => []
  end.

(** ** Computations *)

(** The result of running an operation: its return value, the world it
    leaves and the calls it made, oldest first. *)
Record Outcome (A : Type) := mkOutcome {
  value : A;
  after : World;
  calls : list Call
}.

Arguments mkOutcome {A} _ _ _.
Arguments value {A} _.
Arguments after {A} _.
Arguments calls {A} _.

Definition M (A : Type) : Type := World → Outcome A.

#[global] Instance M_ret : MRet M := λ A a u, mkOutcome a u [].

#[global] Instance M_bind : MBind M := λ A B k m u,
  let o := m u in
  let o' := k (value o) (after o) in
  mkOutcome (value o') (after o') (calls o ++ calls o').

(** A call that only reads. *)
Definition observe {A} (c : Call) (f : World → A) : M A :=
  λ u, mkOutcome (f u) u [c].

(** A call that changes the view tree. *)
Definition act (c : Call) (f : gmap N Layer → gmap N Layer) : M unit :=
  λ u, mkOutcome tt (with_heap u (f (heap u))) [c].

(** A read or a write of memory, which is no call. *)
Definition peek {A} (f : World → A) : M A := λ u, mkOutcome (f u) u [].

Definition poke (f : gmap N Layer → gmap N Layer) : M unit :=
  λ u, mkOutcome tt (with_heap u (f (heap u))) [].

(** Releasing an object also takes it out of the child list of its parent. *)
Definition release (p : ptr) (m : gmap N Layer) : gmap N Layer :=
  without_child p <$> delete p m.

(** The data block behind a pointer obtained from [layer_get_data]. *)
Definition data_of (u : World) (p : ptr) : SegmentLayerData :=
  match heap u !! p with Some l => data l | None => zero_data end.

Definition load (p : ptr) : M SegmentLayerData := peek (λ u, data_of u p).

Definition store (p : ptr) (f : SegmentLayerData → SegmentLayerData) : M unit :=
  poke (alter (with_data f) p).

(** [final_size.size.h += dh]: the sum is computed as an [int] and stored
    back into the 16-bit field. *)
Definition grow_h (dh : Z) (r : GRect) : GRect :=
  {| origin := origin r;
     size := {| w := w (size r); h := int16 (h (size r) + dh) |} |}.

(** ** The specification's classification table *)

(** The table of the specification, row by row; [None] is its last row,
    "any unrecognized value".  The Map row applies when the optional map
    feature is part of the build. *)
Definition spec_table (maps : bool) (en : ConversationEntry) : option SegmentType :=
  match entry_type en with
  | EntryTypeDeleted => Some SegmentTypeNone
  | EntryTypePrompt => Some SegmentTypeMessage
  | EntryTypeResponse => Some SegmentTypeMessage
  | EntryTypeThought => Some SegmentTypeInfo
  | EntryTypeError => Some SegmentTypeInfo
  | EntryTypeAction => Some SegmentTypeInfo
  | EntryTypeWidget =>
      match widget_type (entry_widget en) with
      | ConversationWidgetTypeWeatherSingleDay => Some SegmentTypeWeatherSingleDayWidget
      | ConversationWidgetTypeWeatherCurrent => Some SegmentTypeWeatherCurrentWidget
      | ConversationWidgetTypeWeatherMultiDay => Some SegmentTypeWeatherMultiDayWidget
      | ConversationWidgetTypeTimer => Some SegmentTypeTimerWidget
      | ConversationWidgetTypeNumber => Some SegmentTypeNumberWidget
      | ConversationWidgetTypeMap => if maps then Some SegmentTypeMapWidget else None
      | ConversationWidgetTypeOther _ => None
      end
  | EntryTypeOther _ => None
  end.

(** The child view a segment type stands for; [SegmentTypeNone] has none. *)
Definition view_of (t : SegmentType) : option View :=
  match t with
  | SegmentTypeNone => None
  | SegmentTypeMessage => Some MessageLayer
  | SegmentTypeInfo => Some InfoLayer
  | SegmentTypeWeatherSingleDayWidget => Some WeatherSingleDayWidget
  | SegmentTypeWeatherCurrentWidget => Some WeatherCurrentWidget
  | SegmentTypeWeatherMultiDayWidget => Some WeatherMultiDayWidget
  | SegmentTypeTimerWidget => Some TimerWidget
  | SegmentTypeNumberWidget => Some NumberWidget
  | SegmentTypeMapWidget => Some MapWidget
  end.

(** ** What the file takes from its build and from its collaborators *)

Class Toolkit := {
  (** The build-time switch of features.h. *)
  ENABLE_FEATURE_MAPS : bool;
  (** The address the allocator hands out next: not live, and never null.
      Running out of memory is not modelled. *)
  alloc : gmap N Layer → ptr;
  alloc_fresh : ∀ m, m !! alloc m = None;
  alloc_not_null : ∀ m, alloc m ≠ NULL;
  (** What the toolkit reports as the frame of a handle with no layer
      behind it (the null handle of a segment without a child view). *)
  absent_frame : GRect;
  (** The child views size themselves: the frame a view has after it was
      constructed with a frame for an entry, *)
  natural_frame : View → GRect → ConversationEntry → GRect;
  (** and the frame it gives itself when it is updated. *)
  relayout : View → ConversationEntry → GRect → GRect
}.

Section SegmentLayer.

Context `{Toolkit}.

(** An allocation: the new object is stored at the address the allocator
    hands out. *)
Definition allocate (mk : ptr → Call) (l : Layer) : M ptr :=
  λ u, let p := alloc (heap u) in
       mkOutcome p (with_heap u (<[p := l]> (heap u))) [mk p].

(** *** The data model accessors *)

Definition conversation_entry_get_type (e : ptr) : M EntryType :=
  observe (conversation_entry_get_type_call e) (λ u, entry_type (conversation u e)).

Definition conversation_entry_get_widget (e : ptr) : M ConversationWidget :=
  observe (conversation_entry_get_widget_call e) (λ u, entry_widget (conversation u e)).

(** Modelled from the spec: the BOBBY_LOG macro of util/logging.h, which is
    absent; it writes one log line at the given level. *)
Definition BOBBY_LOG (level : AppLogLevel) (fmt : string) (arg : LogArg) : M unit :=
  observe (BOBBY_LOG_call level fmt arg) (λ _, tt).

(** *** The layer toolkit *)

(** Modelled from the spec: blayer_create_with_data of util/memory/sdk.h,
    which is absent: "view allocation with attached custom data".  The spec
    does not say what the block holds at first; it is taken to be cleared,
    so that the union holds the null handle until the result of a
    constructor is stored in it ("None variant owns no child view"). *)
Definition blayer_create_with_data (rect : GRect) : M ptr :=
  allocate (blayer_create_with_data_call rect) (new_layer rect NULL).

(** Modelled from the spec: btext_layer_create of util/memory/sdk.h, which
    is absent: "label-view creation with settable text". *)
Definition btext_layer_create (rect : GRect) : M ptr :=
  allocate (btext_layer_create_call rect) (new_layer rect NULL).

(** The calls of the display toolkit proper (pebble.h): the data block
    lives inside the layer it belongs to, a text layer starts with its
    layer, a child is attached at the end of its parent's list, a frame is
    read and written through the handle, and destroying an object releases
    it.  On a handle with no layer behind it the writes do nothing; what
    the read gives there is [absent_frame]. *)
Definition layer_get_data (l : ptr) : M ptr := mret l.

Definition text_layer_get_layer (t : ptr) : ptr := t.

Definition text_layer_set_text (t : ptr) (s : string) : M unit :=
  act (text_layer_set_text_call t s) (alter (with_text s) t).

Definition text_layer_destroy (t : ptr) : M unit :=
  act (text_layer_destroy_call t) (release t).

Definition layer_add_child (parent child : ptr) : M unit :=
  act (layer_add_child_call parent child) (alter (with_child child) parent).

Definition frame_of (u : World) (l : ptr) : GRect :=
  match heap u !! l with Some o => frame o | None => absent_frame end.

Definition layer_get_frame (l : ptr) : M GRect := peek (λ u, frame_of u l).

Definition layer_set_frame (l : ptr) (r : GRect) : M unit :=
  act (layer_set_frame_call l r) (alter (with_frame r) l).

Definition layer_destroy (l : ptr) : M unit :=
  act (layer_destroy_call l) (release l).

(** *** The child views *)

(** Modelled from the spec: the concrete views (info_layer.h,
    message_layer.h and widgets/*.h are absent) have a uniform shape:
    create(frame, entry) gives a view handle, update re-reads the entry and
    re-renders, destroy releases the view, and the view's own frame holds
    its natural size after create and update.  Their effects stay within
    the view itself. *)
Definition view_create (v : View) (child_frame : GRect) (e : ptr) : M ptr :=
  λ u, allocate (view_create_call v child_frame e)
                (new_layer (natural_frame v child_frame (conversation u e)) e) u.

Definition view_update (v : View) (p : ptr) : M unit :=
  λ u, act (view_update_call v p)
           (alter (λ o, with_frame (relayout v (conversation u (subject o)) (frame o)) o) p) u.

Definition view_destroy (v : View) (p : ptr) : M unit :=
  act (view_destroy_call v p) (release p).

Definition message_layer_create := view_create MessageLayer.
Definition message_layer_update := view_update MessageLayer.
Definition message_layer_destroy := view_destroy MessageLayer.
Definition info_layer_create := view_create InfoLayer.
Definition info_layer_update := view_update InfoLayer.
Definition info_layer_destroy := view_destroy InfoLayer.
Definition weather_single_day_widget_create := view_create WeatherSingleDayWidget.
Definition weather_single_day_widget_update := view_update WeatherSingleDayWidget.
Definition weather_single_day_widget_destroy := view_destroy WeatherSingleDayWidget.
Definition weather_current_widget_create := view_create WeatherCurrentWidget.
Definition weather_current_widget_update := view_update WeatherCurrentWidget.
Definition weather_current_widget_destroy := view_destroy WeatherCurrentWidget.
Definition weather_multi_day_widget_create := view_create WeatherMultiDayWidget.
Definition weather_multi_day_widget_update := view_update WeatherMultiDayWidget.
Definition weather_multi_day_widget_destroy := view_destroy WeatherMultiDayWidget.
Definition timer_widget_create := view_create TimerWidget.
Definition timer_widget_update := view_update TimerWidget.
Definition timer_widget_destroy := view_destroy TimerWidget.
Definition number_widget_create := view_create NumberWidget.
Definition number_widget_update := view_update NumberWidget.
Definition number_widget_destroy := view_destroy NumberWidget.
Definition map_widget_create := view_create MapWidget.
Definition map_widget_update := view_update MapWidget.
Definition map_widget_destroy := view_destroy MapWidget.

(** *** Classification *)

(** The two nested switches; [Some t] is [return t], [None] leaves the
    switch for the warning below it.  The case of the map widget is under
    [#if ENABLE_FEATURE_MAPS]. *)
Definition prv_get_segment_type (e : ptr) : M SegmentType :=
  t ← conversation_entry_get_type e;
  r ← match t with
      | EntryTypeDeleted => mret (Some SegmentTypeNone)
      | EntryTypePrompt
      | EntryTypeResponse => mret (Some SegmentTypeMessage)
      | EntryTypeThought
      | EntryTypeError
      | EntryTypeAction => mret (Some SegmentTypeInfo)
      | EntryTypeWidget =>
          wd ← conversation_entry_get_widget e;
          mret match widget_type wd with
               | ConversationWidgetTypeWeatherSingleDay => Some SegmentTypeWeatherSingleDayWidget
               | ConversationWidgetTypeWeatherCurrent => Some SegmentTypeWeatherCurrentWidget
               | ConversationWidgetTypeWeatherMultiDay => Some SegmentTypeWeatherMultiDayWidget
               | ConversationWidgetTypeTimer => Some SegmentTypeTimerWidget
               | ConversationWidgetTypeNumber => Some SegmentTypeNumberWidget
               | ConversationWidgetTypeMap =>
                   if ENABLE_FEATURE_MAPS then Some SegmentTypeMapWidget else None
               | ConversationWidgetTypeOther _ => None
               end
      | EntryTypeOther _ => mret None
      end;
  match r with
  | Some s => mret s
  | None =>
      t' ← conversation_entry_get_type e;
      BOBBY_LOG APP_LOG_LEVEL_WARNING "Unknown entry type %d." (LogEntryType t');;
      mret SegmentTypeNone
  end.

(** *** Construction *)

(** In the three functions that follow [seg] is the C variable [layer] and
    [dp] is [data]; a field is read by a [load] of the block and written by
    a [store].  The cases under [#if ENABLE_FEATURE_MAPS] are there when
    the switch is on, and the switch statement has no case for the map
    widget when it is off. *)
Definition segment_layer_create (rect : GRect) (e : ptr) (assistant_label : bool) : M ptr :=
  seg ← blayer_create_with_data rect;
  dp ← layer_get_data seg;
  store dp (set_entry e);;
  ty ← prv_get_segment_type e;
  store dp (set_type ty);;
  child_frame ←
    (if assistant_label then
       lbl ← btext_layer_create (GRectOf 5 0 (w (size rect)) NAME_HEIGHT);
       store dp (set_assistant_label_layer lbl);;
       layer_add_child seg (text_layer_get_layer lbl);;
       text_layer_set_text lbl "Bobby";;
       mret (GRectOf 0 NAME_HEIGHT (w (size rect))
               (int16 (h (size rect) - NAME_HEIGHT)))
     else
       store dp (set_assistant_label_layer NULL);;
       mret (GRectOf 0 0 (w (size rect)) (h (size rect))));
  d ← load dp;
  match type d with
  | SegmentTypeNone => mret tt
  | SegmentTypeMessage =>
      c ← message_layer_create child_frame e; store dp (set_layer c)
  | SegmentTypeInfo =>
      c ← info_layer_create child_frame e; store dp (set_layer c)
  | SegmentTypeWeatherSingleDayWidget =>
      c ← weather_single_day_widget_create child_frame e; store dp (set_layer c)
  | SegmentTypeWeatherCurrentWidget =>
      c ← weather_current_widget_create child_frame e; store dp (set_layer c)
  | SegmentTypeWeatherMultiDayWidget =>
      c ← weather_multi_day_widget_create child_frame e; store dp (set_layer c)
  | SegmentTypeTimerWidget =>
      c ← timer_widget_create child_frame e; store dp (set_layer c)
  | SegmentTypeNumberWidget =>
      c ← number_widget_create child_frame e; store dp (set_layer c)
  | SegmentTypeMapWidget =>
      if ENABLE_FEATURE_MAPS
      then c ← map_widget_create child_frame e; store dp (set_layer c)
      else mret tt
  end;;
  d ← load dp;
  layer_add_child seg (layer d);;
  fr ← layer_get_frame (layer d);
  let child_size := size fr in
  let final_size :=
    GRectOf (x (origin rect)) (y (origin rect)) (w child_size) (h child_size) in
  d ← load dp;
  let final_size :=
    if is_set (assistant_label_layer d) then grow_h NAME_HEIGHT final_size
    else final_size in
  layer_set_frame seg final_size;;
  mret seg.

(** *** Destruction *)

Definition segment_layer_destroy (seg : ptr) : M unit :=
  BOBBY_LOG APP_LOG_LEVEL_INFO "destroying SegmentLayer %p." (LogPointer seg);;
  dp ← layer_get_data seg;
  d ← load dp;
  match type d with
  | SegmentTypeNone => mret tt
  | SegmentTypeMessage => message_layer_destroy (layer d)
  | SegmentTypeInfo => info_layer_destroy (layer d)
  | SegmentTypeWeatherSingleDayWidget => weather_single_day_widget_destroy (layer d)
  | SegmentTypeWeatherCurrentWidget => weather_current_widget_destroy (layer d)
  | SegmentTypeWeatherMultiDayWidget => weather_multi_day_widget_destroy (layer d)
  | SegmentTypeTimerWidget => timer_widget_destroy (layer d)
  | SegmentTypeNumberWidget => number_widget_destroy (layer d)
  | SegmentTypeMapWidget =>
      if ENABLE_FEATURE_MAPS then map_widget_destroy (layer d) else mret tt
  end;;
  d ← load dp;
  (if is_set (assistant_label_layer d)
   then text_layer_destroy (assistant_label_layer d)
   else mret tt);;
  layer_destroy seg.

(** *** The accessor *)

Definition segment_layer_get_entry (seg : ptr) : M ptr :=
  dp ← layer_get_data seg;
  d ← load dp;
  mret (entry d).

(** *** Update *)

Definition segment_layer_update (seg : ptr) : M unit :=
  dp ← layer_get_data seg;
  d ← load dp;
  match type d with
  | SegmentTypeNone => mret tt
  | SegmentTypeMessage => message_layer_update (layer d)
  | SegmentTypeInfo => info_layer_update (layer d)
  | SegmentTypeWeatherSingleDayWidget => weather_single_day_widget_update (layer d)
  | SegmentTypeWeatherCurrentWidget => weather_current_widget_update (layer d)
  | SegmentTypeWeatherMultiDayWidget => weather_multi_day_widget_update (layer d)
  | SegmentTypeTimerWidget => timer_widget_update (layer d)
  | SegmentTypeNumberWidget => number_widget_update (layer d)
  | SegmentTypeMapWidget =>
      if ENABLE_FEATURE_MAPS then map_widget_update (layer d) else mret tt
  end;;
  d ← load dp;
  fr ← layer_get_frame (layer d);
  let child_size := size fr in
  fr' ← layer_get_frame seg;
  let origin0 := origin fr' in
  let final_frame := GRectOf (x origin0) (y origin0) (w child_size) (h child_size) in
  d ← load dp;
  let final_frame :=
    if is_set (assistant_label_layer d) then grow_h NAME_HEIGHT final_frame
    else final_frame in
  layer_set_frame seg final_frame.

(** *** Summaries used in the statements *)

(** The segment type the table gives an entry, [SegmentTypeNone] for its
    last row. *)
Definition variant (en : ConversationEntry) : SegmentType :=
  default SegmentTypeNone (spec_table ENABLE_FEATURE_MAPS en).

(** The frame of the label, and the frame handed to the child view. *)
Definition label_rect (rect : GRect) : GRect :=
  GRectOf 5 0 (w (size rect)) NAME_HEIGHT.

Definition child_rect (rect : GRect) (assistant_label : bool) : GRect :=
  if assistant_label
  then GRectOf 0 NAME_HEIGHT (w (size rect)) (int16 (h (size rect) - NAME_HEIGHT))
  else GRectOf 0 0 (w (size rect)) (h (size rect)).

(** The frame a segment gives itself: the size of its child, made
    [NAME_HEIGHT] taller (in the 16-bit field) under a label, at the origin
    [o]. *)
Definition composed (o : GPoint) (child : GRect) (labelled : bool) : GRect :=
  let r := GRectOf (x o) (y o) (w (size child)) (h (size child)) in
  if labelled then grow_h NAME_HEIGHT r else r.

(** What construction leaves behind: the segment's own layer, the label,
    and the child view. *)
Definition seg_layer (fr : GRect) (e : ptr) (ty : SegmentType)
    (assistant_label : bool) (lbl c : ptr) : Layer :=
  {| frame := fr;
     children := (if assistant_label then [lbl] else []) ++ [c];
     text := ""; subject := NULL;
     data := {| entry := e; assistant_label_layer := lbl; type := ty; layer := c |} |}.

(** The view tree with the label, and with the child view, added. *)
Definition put_label (assistant_label : bool) (lbl : ptr) (rect : GRect)
    (m : gmap N Layer) : gmap N Layer :=
  if assistant_label
  then <[lbl := with_text "Bobby" (new_layer (label_rect rect) NULL)]> m
  else m.

Definition put_child (ov : option View) (c : ptr) (child_frame : GRect)
    (en : ConversationEntry) (e : ptr) (m : gmap N Layer) : gmap N Layer :=
  match ov with
  | Some v => <[c := new_layer (natural_frame v child_frame en) e]> m
  | None => m
  end.

(** The objects a segment with data block [d] owns: its child view (none
    for [SegmentTypeNone]), its label if it has one, and its own layer. *)
Definition child_of (d : SegmentLayerData) : list ptr :=
  match view_of (type d) with Some _ => [layer d] | None => [] end.

Definition label_of (d : SegmentLayerData) : list ptr :=
  if is_set (assistant_label_layer d) then [assistant_label_layer d] else [].

Definition owned (seg : ptr) (d : SegmentLayerData) : list ptr :=
  child_of d ++ label_of d ++ [seg].

(** [seg] is a segment of the world [u]: the objects it owns are live and
    distinct, its union does not point back at its own layer, and its type
    is one the build has. *)
Definition is_segment (u : World) (seg : ptr) : bool :=
  let d := data_of u seg in
  bool_decide (NoDup (owned seg d))
  && bool_decide (Forall (λ p, is_Some (heap u !! p)) (owned seg d))
  && bool_decide (layer d ≠ seg)
  && match type d with SegmentTypeMapWidget => ENABLE_FEATURE_MAPS | _ => true end.

(** [restore ps old m]: the view tree [m], except that the objects at the
    addresses [ps] are as they are in [old]. *)
Definition restore (ps : list ptr) (old m : gmap N Layer) : gmap N Layer :=
  foldr (λ p acc, partial_alter (λ _, old !! p) p acc) m ps.

(** What can happen to a segment between its construction and its
    destruction: it is updated, the container gives it another frame, the
    conversation changes behind the entry pointers, or the rest of the view
    tree changes (other segments come and go) while the objects the segment
    owns stay. *)
Inductive Event :=
| Updated
| Moved (r : GRect)
| Changed (c : ptr → ConversationEntry)
| Elsewhere (m : gmap N Layer).

(** The events that leave the rest of the view tree alone. *)
Definition quiet (ev : Event) : bool :=
  match ev with Elsewhere _ => false | _ => true end.

Definition happen (seg : ptr) (u : World) (ev : Event) : World :=
  match ev with
  | Updated => after (segment_layer_update seg u)
  | Moved r => after (layer_set_frame seg r u)
  | Changed c => with_conversation u c
  | Elsewhere m => with_heap u (restore (owned seg (data_of u seg)) (heap u) m)
  end.

Definition lifetime (seg : ptr) (evs : list Event) (u : World) : World :=
  foldl (happen seg) u evs.

(** The view tree after the update of the child view, and after the release
    of the child view and of the label. *)
Definition relaid (u : World) (d : SegmentLayerData) : gmap N Layer :=
  match view_of (type d) with
  | Some v =>
      alter (λ o, with_frame (relayout v (conversation u (subject o)) (frame o)) o)
            (layer d) (heap u)
  | None => heap u
  end.

(** The one call on the child view, if the segment type has one. *)
Definition view_calls (mk : View → ptr → Call) (d : SegmentLayerData) : list Call :=
  match view_of (type d) with Some v => [mk v (layer d)] | None => [] end.

Definition released_child (d : SegmentLayerData) (m : gmap N Layer) : gmap N Layer :=
  match view_of (type d) with Some _ => release (layer d) m | None => m end.

Definition released_label (d : SegmentLayerData) (m : gmap N Layer) : gmap N Layer :=
  if is_set (assistant_label_layer d) then release (assistant_label_layer d) m else m.

(** The calls of one classification. *)
Definition classify_calls (e : ptr) (en : ConversationEntry) : list Call :=
  [conversation_entry_get_type_call e]
  ++ match entry_type en with
     | EntryTypeWidget => [conversation_entry_get_widget_call e]
     | _ => []
     end
  ++ match spec_table ENABLE_FEATURE_MAPS en with
     | Some _ => []
     | None =>
         [conversation_entry_get_type_call e;
          BOBBY_LOG_call APP_LOG_LEVEL_WARNING "Unknown entry type %d."
            (LogEntryType (entry_type en))]
     end.

(** What construction establishes. *)
Record Built (u : World) (rect : GRect) (e : ptr) (lab : bool)
    (o : Outcome ptr) : Prop := {
  built_entry : entry (data_of (after o) (value o)) = e;
  built_type : type (data_of (after o) (value o)) = variant (conversation u e);
  built_label : is_set (assistant_label_layer (data_of (after o) (value o))) = lab;
  built_no_child :
    view_of (variant (conversation u e)) = None →
    layer (data_of (after o) (value o)) = NULL;
  built_segment : is_segment (after o) (value o) = true;
  built_conversation : conversation (after o) = conversation u;
  built_frame :
    frame_of (after o) (value o) =
    composed (origin rect) (frame_of (after o) (layer (data_of (after o) (value o)))) lab;
  built_child : ∀ v,
    view_of (variant (conversation u e)) = Some v →
    heap (after o) !! layer (data_of (after o) (value o)) =
    Some (new_layer (natural_frame v (child_rect rect lab) (conversation u e)) e);
  built_null : frame_of (after o) NULL = frame_of u NULL;
  built_label_layer :
    lab = true →
    heap (after o) !! assistant_label_layer (data_of (after o) (value o)) =
    Some (with_text "Bobby" (new_layer (label_rect rect) NULL));
  built_children : ∀ S,
    heap (after o) !! value o = Some S →
    children S = label_of (data S) ++ [layer (data S)];
  built_dom :
    dom (heap (after o)) =
    dom (heap u) ∪ list_to_set (owned (value o) (data_of (after o) (value o)));
  built_fresh : ∀ p,
    p ∈ owned (value o) (data_of (after o) (value o)) → heap u !! p = None;
  built_old : ∀ p L, heap u !! p = Some L → heap (after o) !! p = Some L;
  built_calls :
    let d := data_of (after o) (value o) in
    calls o =
    [blayer_create_with_data_call rect (value o)]
    ++ classify_calls e (conversation u e)
    ++ (if lab
        then [btext_layer_create_call (label_rect rect) (assistant_label_layer d);
              layer_add_child_call (value o) (assistant_label_layer d);
              text_layer_set_text_call (assistant_label_layer d) "Bobby"]
        else [])
    ++ view_calls (λ v c, view_create_call v (child_rect rect lab) e c) d
    ++ [layer_add_child_call (value o) (layer d);
        layer_set_frame_call (value o) (frame_of (after o) (value o))]
}.

(** What an update establishes, given a segment. *)
Record Relaid (u : World) (seg : ptr) (o : Outcome unit) : Prop := {
  relaid_data : data_of (after o) seg = data_of u seg;
  relaid_dom : dom (heap (after o)) = dom (heap u);
  relaid_segment : is_segment (after o) seg = true;
  relaid_conversation : conversation (after o) = conversation u;
  relaid_frame :
    frame_of (after o) seg =
    composed (origin (frame_of u seg))
      (frame_of (after o) (layer (data_of u seg)))
      (is_set (assistant_label_layer (data_of u seg)));
  relaid_others : ∀ p,
    p ≠ seg → p ∉ child_of (data_of u seg) → heap (after o) !! p = heap u !! p;
  relaid_self : ∀ S,
    heap u !! seg = Some S →
    heap (after o) !! seg = Some (with_frame (frame_of (after o) seg) S);
  relaid_child : ∀ v,
    view_of (type (data_of u seg)) = Some v →
    heap (after o) !! layer (data_of u seg) =
    (λ c, with_frame (relayout v (conversation u (subject c)) (frame c)) c)
      <$> heap u !! layer (data_of u seg);
  relaid_calls :
    calls o =
    view_calls view_update_call (data_of u seg)
    ++ [layer_set_frame_call seg (frame_of (after o) seg)]
}.

(** What stays true of a segment for as long as it lives. *)
Record Alive (u1 : World) (seg : ptr) (u : World) : Prop := {
  alive_segment : is_segment u seg = true;
  alive_data : data_of u seg = data_of u1 seg
}.

(** What destruction establishes, given a segment. *)
Record Destroyed (u : World) (seg : ptr) (o : Outcome unit) : Prop := {
  destroyed_calls :
    let d := data_of u seg in
    calls o =
    [BOBBY_LOG_call APP_LOG_LEVEL_INFO "destroying SegmentLayer %p." (LogPointer seg)]
    ++ view_calls view_destroy_call d
    ++ (if is_set (assistant_label_layer d)
        then [text_layer_destroy_call (assistant_label_layer d)] else [])
    ++ [layer_destroy_call seg];
  destroyed_dom :
    dom (heap (after o)) = dom (heap u) ∖ list_to_set (owned seg (data_of u seg));
  destroyed_conversation : conversation (after o) = conversation u;
  destroyed_survivors : ∀ p L',
    heap (after o) !! p = Some L' →
    ∃ L, heap u !! p = Some L ∧ data L' = data L ∧ frame L' = frame L ∧ text L' = text L
}.

(** *** Several segments *)

(** The objects the segment [seg] owns in the world [u], and the objects
    the segments [segs] own between them. *)
Definition owned_by (u : World) (seg : ptr) : list ptr := owned seg (data_of u seg).

Definition owned_all (u : World) (segs : list ptr) : list ptr :=
  concat (map (owned_by u) segs).

(** [segs] are segments of [u], and no object belongs to two of them. *)
Definition segments (u : World) (segs : list ptr) : bool :=
  forallb (is_segment u) segs && bool_decide (NoDup (owned_all u segs)).

(** Modelled from the spec: the list controller that uses this file, which
    is not among the sources.  It "creates one Segment per visible
    conversation entry, calls update on it when the entry's backing data
    changes or when parent layout changes, and destroys it when the entry
    scrolls out or is removed".  A step of the controller constructs a
    segment and appends it to its rows, updates or destroys the row at an
    index, gives the row at an index another frame, or sees the conversation
    change; a step at an index past the rows does nothing. *)
Inductive ContainerStep :=
| CreateRow (rect : GRect) (e : ptr) (assistant_label : bool)
| UpdateRow (i : nat)
| DestroyRow (i : nat)
| MoveRow (i : nat) (r : GRect)
| ChangeEntries (c : ptr → ConversationEntry).

(** Modelled from the spec: one step of that controller, on the rows it
    holds. *)
Definition container_step (rows : list ptr) (s : ContainerStep) : M (list ptr) :=
  match s with
  | CreateRow rect e assistant_label =>
      seg ← segment_layer_create rect e assistant_label;
      mret (rows ++ [seg])
  | UpdateRow i =>
      match rows !! i with
      | Some seg => segment_layer_update seg;; mret rows
      | None => mret rows
      end
  | DestroyRow i =>
      match rows !! i with
      | Some seg => segment_layer_destroy seg;; mret (delete i rows)
      | None => mret rows
      end
  | MoveRow i r =>
      match rows !! i with
      | Some seg => layer_set_frame seg r;; mret rows
      | None => mret rows
      end
  | ChangeEntries c => λ u, mkOutcome rows (with_conversation u c) []
  end.

(** Modelled from the spec: a run of the controller, step after step. *)
Fixpoint container (steps : list ContainerStep) (rows : list ptr) : M (list ptr) :=
  match steps with
  | [] => mret rows
  | s :: steps' => rows' ← container_step rows s; container steps' rows'
  end.

(** What the controller keeps true of its rows, from the world [u0] it
    started in: the rows are segments that share no object, the live objects
    are those of [u0] and those the rows own, the latter were not live in
    [u0], every allocation made so far is matched by a release or is owned
    by a row, and the objects of [u0] keep their data, frame and text. *)
Record Housekept (u0 u : World) (rows : list ptr) (cs : list Call) : Prop := {
  kept_segments : segments u rows = true;
  kept_dom : dom (heap u) = dom (heap u0) ∪ list_to_set (owned_all u rows);
  kept_apart : ∀ p, p ∈ owned_all u rows → heap u0 !! p = None;
  kept_accounts :
    concat (map allocated cs) ≡ₚ concat (map released cs) ++ owned_all u rows;
  kept_others : ∀ p L,
    heap u0 !! p = Some L →
    ∃ L', heap u !! p = Some L' ∧
          data L' = data L ∧ frame L' = frame L ∧ text L' = text L
}.

End SegmentLayer.

(** [wp m u Q]: the outcome of [m] from [u] satisfies [Q]. *)
Definition wp {A} (m : M A) (u : World) (Q : A → World → list Call → Prop) : Prop :=
  Q (value (m u)) (after (m u)) (calls (m u)).

(** Which calls the operations can make at all, whatever the world. *)
Definition update_call (c : Call) : Prop :=
  match c with
  | view_update_call _ _ | layer_set_frame_call _ _ => True
  | _ => False
  end.

Definition destroy_call (c : Call) : Prop :=
  match c with
  | BOBBY_LOG_call APP_LOG_LEVEL_INFO _ _
  | view_destroy_call _ _ | text_layer_destroy_call _ | layer_destroy_call _ => True
  | _ => False
  end.

(** The entries [conversation_entry_get_widget] is meant for. *)
Definition is_widget_entry (en : ConversationEntry) : bool :=
  match entry_type en with EntryTypeWidget => true | _ => false end.

(** A log line at warning level or above. *)
Definition is_alarm (c : Call) : bool :=
  match c with
  | BOBBY_LOG_call APP_LOG_LEVEL_ERROR _ _
  | BOBBY_LOG_call APP_LOG_LEVEL_WARNING _ _ => true
  | _ => false
  end.

(** The calls into a child view. *)
Definition is_view_call (c : Call) : bool :=
  match c with
  | view_create_call _ _ _ _ | view_update_call _ _ | view_destroy_call _ _ => true
  | _ => false
  end.

(** The calls into the map widget. *)
Definition is_map_call (c : Call) : bool :=
  match c with
  | view_create_call MapWidget _ _ _
  | view_update_call MapWidget _
  | view_destroy_call MapWidget _ => true
  | _ => false
  end.

(** The entries that carry a map widget. *)
Definition is_map_entry (en : ConversationEntry) : bool :=
  match entry_type en, widget_type (entry_widget en) with
  | EntryTypeWidget, ConversationWidgetTypeMap => true
  | _, _ => false
  end.

(** ** A concrete allocator and conversation, to run the operations on *)

(** An address that is neither live nor null. *)
Definition least_free (m : gmap N Layer) : ptr := fresh ({[NULL]} ∪ dom m).

(** Entry 100 is a timer widget, entry 101 has a type from a later version
    of the data model, every other entry is a prompt. *)
Definition demo_conversation (e : ptr) : ConversationEntry :=
  if (e =? 100)%N then
    {| entry_type := EntryTypeWidget;
       entry_widget := {| widget_type := ConversationWidgetTypeTimer |} |}
  else if (e =? 101)%N then
    {| entry_type := EntryTypeOther 42;
       entry_widget := {| widget_type := ConversationWidgetTypeOther 0 |} |}
  else
    {| entry_type := EntryTypePrompt;
       entry_widget := {| widget_type := ConversationWidgetTypeOther 0 |} |}.

(** ** Basic facts *)

Lemma least_free_fresh (m : gmap N Layer) : m !! least_free m = None.
Proof.
  apply not_elem_of_dom. unfold least_free.
  pose proof (is_fresh ({[NULL]} ∪ dom m)). set_solver.
Qed.

Lemma least_free_not_null (m : gmap N Layer) : least_free m ≠ NULL.
Proof.
  unfold least_free. pose proof (is_fresh ({[NULL]} ∪ dom m)). set_solver.
Qed.

(** ** A concrete toolkit and conversation, to run the operations on *)

Definition demo_toolkit : Toolkit :=
  {| ENABLE_FEATURE_MAPS := true;
     alloc := least_free;
     alloc_fresh := least_free_fresh;
     alloc_not_null := least_free_not_null;
     absent_frame := GRectZero;
     natural_frame := λ _ r _, GRectOf (x (origin r)) (y (origin r)) (w (size r)) 47;
     relayout := λ _ _ r, r |}.

Definition demo_world : World :=
  {| conversation := demo_conversation; heap := ∅ |}.

(** The same toolkit in a build without the map feature, and a conversation
    whose entries are all map widgets. *)
Definition demo_toolkit_without_maps : Toolkit :=
  {| ENABLE_FEATURE_MAPS := false;
     alloc := least_free;
     alloc_fresh := least_free_fresh;
     alloc_not_null := least_free_not_null;
     absent_frame := GRectZero;
     natural_frame := λ _ r _, GRectOf (x (origin r)) (y (origin r)) (w (size r)) 47;
     relayout := λ _ _ r, r |}.

Definition map_world : World :=
  {| conversation := λ _,
       {| entry_type := EntryTypeWidget;
          entry_widget := {| widget_type := ConversationWidgetTypeMap |} |};
     heap := ∅ |}.


Definition toolkit_tall_views : Toolkit :=
  {| ENABLE_FEATURE_MAPS := true;
     alloc := least_free;
     alloc_fresh := least_free_fresh;
     alloc_not_null := least_free_not_null;
     absent_frame := GRectZero;
     natural_frame := λ _ r _, GRectOf (x (origin r)) (y (origin r)) (w (size r)) 32760;
     relayout := λ _ _ r, r |}.

(** ** Running an operation step by step *)

Lemma wp_outcome {A} (m : M A) u (o : Outcome A) :
  wp m u (λ a u' cs, mkOutcome a u' cs = o) → m u = o.
Proof. unfold wp. destruct (m u); auto. Qed.

Lemma wp_bind {A B} (m : M A) (k : A → M B) u Q :
  wp m u (λ a u1 cs, wp (k a) u1 (λ b u2 cs', Q b u2 (cs ++ cs'))) →
  wp (m ≫= k) u Q.
Proof. exact id. Qed.

Lemma wp_ret {A} (a : A) u Q : Q a u [] → wp (mret a) u Q.
Proof. exact id. Qed.

Lemma wp_observe {A} c (f : World → A) u Q : Q (f u) u [c] → wp (observe c f) u Q.
Proof. exact id. Qed.

Lemma wp_peek {A} (f : World → A) u Q v : f u = v → Q v u [] → wp (peek f) u Q.
Proof. intros <-. exact id. Qed.

Lemma is_set_true (p : ptr) : p ≠ NULL → is_set p = true.
Proof. intros Hp. unfold is_set. now apply negb_true_iff, N.eqb_neq. Qed.

Lemma wp_act c f u Q : Q tt (with_heap u (f (heap u))) [c] → wp (act c f) u Q.
Proof. exact id. Qed.

Lemma wp_poke f u Q : Q tt (with_heap u (f (heap u))) [] → wp (poke f) u Q.
Proof. exact id. Qed.

Lemma wp_allocate `{Toolkit} mk l u Q :
  (∀ p, p = alloc (heap u) → heap u !! p = None → p ≠ NULL →
        Q p (with_heap u (<[p := l]> (heap u))) [mk p]) →
  wp (allocate mk l) u Q.
Proof.
  intros HQ. apply (HQ (alloc (heap u)) eq_refl (alloc_fresh _) (alloc_not_null _)).
Qed.

Ltac heap_norm :=
  repeat first
    [ rewrite alter_insert_eq
    | rewrite alter_insert_ne by done
    | rewrite lookup_insert_eq
    | rewrite lookup_insert_ne by done
    | rewrite lookup_alter_eq
    | rewrite lookup_alter_ne by done
    | rewrite lookup_fmap
    | rewrite lookup_delete_eq
    | rewrite lookup_delete_ne by done
    | match goal with
      | H : ?m !! ?p = _ |- context [?m !! ?p] => rewrite H
      end ].

Ltac fresh_facts :=
  repeat match goal with
  | H : <[_ := _]> _ !! _ = None |- _ =>
      apply lookup_insert_None in H; destruct H
  end.

Ltac tidy1 :=
  cbv beta; unfold with_heap, release;
  cbn [heap conversation text_layer_get_layer fmap option_fmap option_map
       data layer type entry assistant_label_layer frame children text subject
       with_data with_frame with_child with_text without_child new_layer
       set_entry set_type set_layer set_assistant_label_layer zero_data];
  change (is_set NULL) with false;
  repeat match goal with
  | H : ?p ≠ NULL |- context [is_set ?p] => rewrite (is_set_true p H)
  end;
  heap_norm.

Ltac tidy := repeat progress tidy1.

Ltac step :=
  lazymatch goal with
  | |- wp (mbind _ _) _ _ => apply wp_bind
  | |- wp (mret _) _ _ => apply wp_ret
  | |- wp (observe _ _) _ _ => apply wp_observe
  | |- wp (peek _) _ _ =>
      eapply wp_peek; [unfold data_of, frame_of; tidy; reflexivity |]
  | |- wp (act _ _) _ _ => apply wp_act
  | |- wp (poke _) _ _ => apply wp_poke
  | |- wp (allocate _ _) _ _ =>
      apply wp_allocate;
      let p := fresh "p" in let Ep := fresh "Ep" in
      let Hp := fresh "Hp" in let Np := fresh "Np" in
      intros p Ep Hp Np; cbn [with_heap heap] in Hp; fresh_facts
  | |- wp (load _) _ _ => unfold load
  | |- wp (store _ _) _ _ => unfold store
  | |- wp (BOBBY_LOG _ _ _) _ _ => unfold BOBBY_LOG
  | |- wp (blayer_create_with_data _) _ _ => unfold blayer_create_with_data
  | |- wp (btext_layer_create _) _ _ => unfold btext_layer_create
  | |- wp (layer_get_data _) _ _ => unfold layer_get_data
  | |- wp (text_layer_set_text _ _) _ _ => unfold text_layer_set_text
  | |- wp (text_layer_destroy _) _ _ => unfold text_layer_destroy
  | |- wp (layer_add_child _ _) _ _ => unfold layer_add_child
  | |- wp (layer_get_frame _) _ _ => unfold layer_get_frame
  | |- wp (layer_set_frame _ _) _ _ => unfold layer_set_frame
  | |- wp (layer_destroy _) _ _ => unfold layer_destroy
  | |- wp (view_create _ _ _) ?u ?Q =>
      unfold view_create at 1;
      lazymatch goal with
      | |- wp (λ x, allocate ?c (@?l x) x) _ _ => change (wp (allocate c (l u)) u Q)
      end
  | |- wp (view_update _ _) ?u ?Q =>
      unfold view_update at 1;
      lazymatch goal with
      | |- wp (λ x, act ?c (@?f x) x) _ _ => change (wp (act c (f u)) u Q)
      end
  | |- wp (view_destroy _ _) _ _ => unfold view_destroy at 1
  | |- wp _ _ _ =>
      progress unfold
        message_layer_create, message_layer_update, message_layer_destroy,
        info_layer_create, info_layer_update, info_layer_destroy,
        weather_single_day_widget_create, weather_single_day_widget_update,
        weather_single_day_widget_destroy,
        weather_current_widget_create, weather_current_widget_update,
        weather_current_widget_destroy,
        weather_multi_day_widget_create, weather_multi_day_widget_update,
        weather_multi_day_widget_destroy,
        timer_widget_create, timer_widget_update, timer_widget_destroy,
        number_widget_create, number_widget_update, number_widget_destroy,
        map_widget_create, map_widget_update, map_widget_destroy
  end; tidy.

Ltac steps := repeat step.

Section SegmentLayerFacts.

Context `{Toolkit}.

Lemma prv_get_segment_type_run (e : ptr) (u : World) :
  prv_get_segment_type e u =
  mkOutcome (default SegmentTypeNone (spec_table ENABLE_FEATURE_MAPS (conversation u e)))
            u (classify_calls e (conversation u e)).
Proof.
  apply wp_outcome. unfold prv_get_segment_type, classify_calls, spec_table.
  step. unfold conversation_entry_get_type. step.
  destruct (conversation u e) as [t [wt]] eqn:E;
    cbn [entry_type entry_widget widget_type].
  destruct t; steps; try reflexivity.
  - unfold conversation_entry_get_widget. steps. rewrite E.
    cbn [entry_type entry_widget widget_type].
    destruct wt; [| | | | | destruct ENABLE_FEATURE_MAPS |]; steps;
      try reflexivity;
      unfold conversation_entry_get_type; steps; rewrite E; reflexivity.
  - unfold conversation_entry_get_type; steps; rewrite E; reflexivity.
Qed.

Lemma wp_prv_get_segment_type e u Q :
  Q (default SegmentTypeNone (spec_table ENABLE_FEATURE_MAPS (conversation u e)))
    u (classify_calls e (conversation u e)) →
  wp (prv_get_segment_type e) u Q.
Proof. unfold wp. now rewrite prv_get_segment_type_run. Qed.

Ltac step' := first [apply wp_prv_get_segment_type; tidy | step].

Lemma wp_post {A} (m : M A) u (P : Outcome A → Prop) :
  wp m u (λ a u' cs, P (mkOutcome a u' cs)) → P (m u).
Proof. unfold wp. destruct (m u); auto. Qed.

Lemma spec_table_map (en : ConversationEntry) :
  spec_table ENABLE_FEATURE_MAPS en = Some SegmentTypeMapWidget →
  ENABLE_FEATURE_MAPS = true.
Proof.
  unfold spec_table.
  destruct (entry_type en); try discriminate.
  destruct (widget_type (entry_widget en)); try discriminate.
  destruct ENABLE_FEATURE_MAPS; [reflexivity | discriminate].
Qed.

Ltac classified E :=
  try unfold variant; rewrite ?E; cbn [default from_option id view_of].

Lemma segment_layer_create_run (rect : GRect) (e : ptr) (assistant_label : bool)
    (u : World) :
  let en := conversation u e in
  let ty := variant en in
  ∃ seg lbl c : ptr,
    (heap u !! seg = None ∧ seg ≠ NULL) ∧
    (if assistant_label
     then heap u !! lbl = None ∧ lbl ≠ NULL ∧ lbl ≠ seg
     else lbl = NULL) ∧
    match view_of ty with
    | Some _ => heap u !! c = None ∧ c ≠ NULL ∧ c ≠ seg ∧ c ≠ lbl
    | None => c = NULL
    end ∧
    let child_frame := child_rect rect assistant_label in
    let final :=
      composed (origin rect)
        match view_of ty with
        | Some v => natural_frame v child_frame en
        | None => frame_of u NULL
        end assistant_label in
    segment_layer_create rect e assistant_label u =
    mkOutcome seg
      (with_heap u
         (put_child (view_of ty) c child_frame en e
            (put_label assistant_label lbl rect
               (<[seg := seg_layer final e ty assistant_label lbl c]> (heap u)))))
      ([blayer_create_with_data_call rect seg]
       ++ classify_calls e en
       ++ (if assistant_label
           then [btext_layer_create_call (label_rect rect) lbl;
                 layer_add_child_call seg lbl;
                 text_layer_set_text_call lbl "Bobby"]
           else [])
       ++ match view_of ty with
          | Some v => [view_create_call v child_frame e c]
          | None => []
          end
       ++ [layer_add_child_call seg c; layer_set_frame_call seg final]).
Proof.
  intros en ty. subst en ty.
  pattern (segment_layer_create rect e assistant_label u).
  apply wp_post. unfold segment_layer_create.
  repeat step'.
  destruct assistant_label; repeat step'.
  all: destruct (spec_table ENABLE_FEATURE_MAPS (conversation u e))
         as [ty|] eqn:Ety; [destruct ty|]; classified Ety;
       try rewrite (spec_table_map _ Ety).
  all: repeat step'.
  all: do 3 eexists; split_and!; revgoals;
      [ classified Ety; cbn [app]; reflexivity | .. ]; done.
Qed.

(** *** What update does *)

Lemma segment_layer_update_run (u : World) (seg : ptr) (S : Layer) :
  heap u !! seg = Some S →
  layer (data S) ≠ seg →
  (type (data S) = SegmentTypeMapWidget → ENABLE_FEATURE_MAPS = true) →
  let d := data S in
  let final :=
    composed (origin (frame S)) (frame_of (with_heap u (relaid u d)) (layer d))
             (is_set (assistant_label_layer d)) in
  segment_layer_update seg u =
  mkOutcome tt
    (with_heap u (alter (with_frame final) seg (relaid u d)))
    (view_calls view_update_call d ++ [layer_set_frame_call seg final]).
Proof.
  intros Hseg Hc Hmaps d final. subst d final. apply wp_outcome.
  unfold segment_layer_update, relaid, view_calls, composed, frame_of.
  destruct S as [fr ch tx sb [e l ty c]]; cbn [data type layer] in *.
  destruct ty; try rewrite (Hmaps eq_refl); cbn [view_of] in *;
    repeat step'; unfold with_heap; tidy; reflexivity.
Qed.

(** *** What destroy does *)

Lemma segment_layer_destroy_run (u : World) (seg : ptr) (S : Layer) :
  heap u !! seg = Some S →
  NoDup (owned seg (data S)) →
  (type (data S) = SegmentTypeMapWidget → ENABLE_FEATURE_MAPS = true) →
  let d := data S in
  segment_layer_destroy seg u =
  mkOutcome tt
    (with_heap u (release seg (released_label d (released_child d (heap u)))))
    ([BOBBY_LOG_call APP_LOG_LEVEL_INFO "destroying SegmentLayer %p." (LogPointer seg)]
     ++ view_calls view_destroy_call d
     ++ (if is_set (assistant_label_layer d)
         then [text_layer_destroy_call (assistant_label_layer d)] else [])
     ++ [layer_destroy_call seg]).
Proof.
  intros Hseg Hnd Hmaps d. subst d. apply wp_outcome.
  unfold segment_layer_destroy, released_child, released_label, view_calls.
  destruct S as [fr ch tx sb [e l ty c]]; cbn [data type layer assistant_label_layer] in *.
  unfold owned, child_of, label_of in Hnd; cbn [type layer assistant_label_layer] in Hnd.
  assert (Hcs : is_Some (view_of ty) → c ≠ seg).
  { intros [v Hv]. rewrite Hv in Hnd. apply NoDup_cons_1_1 in Hnd. set_solver. }
  assert (Hls : is_set l = true → l ≠ seg).
  { intros Hl. rewrite Hl in Hnd. apply NoDup_app in Hnd as (_ & _ & Hnd).
    apply NoDup_cons_1_1 in Hnd. set_solver. }
  assert (Hcl : is_Some (view_of ty) → is_set l = true → c ≠ l).
  { intros [v Hv] Hl. rewrite Hv, Hl in Hnd. apply NoDup_cons_1_1 in Hnd. set_solver. }
  clear Hnd.
  destruct ty; try rewrite (Hmaps eq_refl); cbn [view_of] in *;
    try (assert (c ≠ seg) by (apply Hcs; eauto));
    destruct (is_set l) eqn:El;
    try (assert (l ≠ seg) by (apply Hls; eauto));
    try (assert (c ≠ l) by (apply Hcl; eauto));
    repeat (step'; rewrite ?El); unfold with_heap; tidy; reflexivity.
Qed.

(** *** Segments *)

Lemma is_segment_spec (u : World) (seg : ptr) :
  is_segment u seg = true ↔
  ∃ S, heap u !! seg = Some S ∧
       NoDup (owned seg (data S)) ∧
       (∀ p, p ∈ owned seg (data S) → is_Some (heap u !! p)) ∧
       layer (data S) ≠ seg ∧
       (type (data S) = SegmentTypeMapWidget → ENABLE_FEATURE_MAPS = true).
Proof.
  unfold is_segment. rewrite !andb_true_iff, !bool_decide_eq_true, Forall_forall.
  split.
  - intros [[[Hnd Hlive] Hl] Hm].
    assert (Hin : seg ∈ owned seg (data_of u seg)) by (unfold owned; set_solver).
    destruct (Hlive _ Hin) as [S HS]. exists S.
    unfold data_of in *. rewrite HS in *. split_and!; auto.
    intros Ht. now rewrite Ht in Hm.
  - intros (S & HS & Hnd & Hlive & Hl & Hm).
    unfold data_of. rewrite HS. split_and!; auto.
    destruct (type (data S)); auto.
Qed.

Lemma variant_map (en : ConversationEntry) :
  variant en = SegmentTypeMapWidget → ENABLE_FEATURE_MAPS = true.
Proof.
  unfold variant. destruct (spec_table ENABLE_FEATURE_MAPS en) as [ty|] eqn:E; cbn.
  - intros ->. eapply spec_table_map, E.
  - discriminate.
Qed.

Lemma is_set_NULL : is_set NULL = false.
Proof. reflexivity. Qed.

Lemma segment_layer_create_built (u : World) (rect : GRect) (e : ptr) (lab : bool) :
  Built u rect e lab (segment_layer_create rect e lab u).
Proof.
  destruct (segment_layer_create_run rect e lab u)
    as (seg & lbl & c & [Hs Ns] & Hl & Hc & ->).
  pose proof (variant_map (conversation u e)) as Hmap.
  set (ty := variant (conversation u e)) in *.
  set (final := composed _ _ _).
  set (S := seg_layer final e ty lab lbl c).
  set (u1 := with_heap u _).
  assert (Hseg : heap u1 !! seg = Some S).
  { subst u1. destruct lab, (view_of ty); cbn [put_label put_child];
      destruct_and?; tidy; done. }
  assert (Hlbl : lab = true → heap u1 !! lbl =
                 Some (with_text "Bobby" (new_layer (label_rect rect) NULL))).
  { intros ->. subst u1. destruct (view_of ty); cbn [put_label put_child];
      destruct_and?; tidy; done. }
  assert (Hchild : ∀ v, view_of ty = Some v → heap u1 !! c =
            Some (new_layer (natural_frame v (child_rect rect lab) (conversation u e)) e)).
  { intros v Hv. subst u1. rewrite Hv. cbn [put_child]. tidy. done. }
  assert (Hold : ∀ p, p ≠ seg → (lab = true → p ≠ lbl) → (is_Some (view_of ty) → p ≠ c) →
                 heap u1 !! p = heap u !! p).
  { intros p Hps Hpl Hpc. subst u1.
    destruct lab, (view_of ty); cbn [put_label put_child];
      try (assert (lbl ≠ p) by (intros ->; now apply Hpl));
      try (assert (c ≠ p) by (intros ->; apply Hpc; eauto));
      assert (seg ≠ p) by done; tidy; done. }
  assert (Hdom : dom (heap u1) = dom (heap u) ∪ list_to_set (owned seg (data S))).
  { subst u1 S. unfold owned, child_of, label_of, seg_layer.
    cbn [data type layer assistant_label_layer].
    destruct lab, (view_of ty); cbn [put_label put_child];
      destruct_and?; subst; rewrite ?is_set_true, ?is_set_NULL by done;
      unfold with_heap; cbn [heap]; rewrite ?dom_insert_L; set_solver. }
  assert (Hd : data_of u1 seg = data S) by (unfold data_of; now rewrite Hseg).
  assert (Hlab : is_set lbl = lab).
  { destruct lab; destruct_and?; subst; [now apply is_set_true | done]. }
  assert (Hfresh : ∀ p, p ∈ owned seg (data S) → heap u !! p = None).
  { intros p. subst S. unfold owned, child_of, label_of, seg_layer.
    cbn [data type layer assistant_label_layer]. rewrite Hlab.
    destruct lab, (view_of ty); destruct_and?; set_solver. }
  assert (Hnull : heap u1 !! NULL = heap u !! NULL).
  { apply Hold; [done | intros ->; destruct_and?; done |].
    intros [v Hv]. rewrite Hv in Hc. destruct_and?; done. }
  assert (Hfs : frame_of u1 seg = final).
  { unfold frame_of. now rewrite Hseg. }
  assert (Hfc : frame_of u1 c =
                match view_of ty with
                | Some v => natural_frame v (child_rect rect lab) (conversation u e)
                | None => frame_of u NULL
                end).
  { unfold frame_of at 1. destruct (view_of ty) as [v|] eqn:Ev.
    - now rewrite (Hchild v eq_refl).
    - subst c. now rewrite Hnull. }
  assert (Hcs : c ≠ seg).
  { destruct (view_of ty); [destruct_and?; done | now subst c]. }
  cbn [value after calls]. split; cbn [value after calls]; rewrite ?Hd;
    subst S; cbn [data seg_layer entry type layer assistant_label_layer];
    try done.
  - intros Hv. fold ty in Hv. now rewrite Hv in Hc.
  - apply is_segment_spec. eexists. split; [exact Hseg |].
    cbn [data seg_layer type layer]. split_and!; try done.
    + unfold owned, child_of, label_of.
      cbn [type layer assistant_label_layer]. rewrite Hlab.
      destruct lab, (view_of ty); destruct_and?; subst;
        repeat (apply NoDup_cons; split); try apply NoDup_nil_2; set_solver.
    + intros p Hp. apply elem_of_dom. rewrite Hdom. set_solver.
  - now rewrite Hfs, Hfc.
  - unfold frame_of. now rewrite Hnull.
  - intros S' HS'. rewrite Hseg in HS'. injection HS' as <-.
    unfold label_of. cbn [children data seg_layer assistant_label_layer layer].
    rewrite Hlab. now destruct lab.
  - intros p L HL. rewrite <- HL. apply Hold.
    + intros ->. congruence.
    + intros ->. destruct_and?. intros ->. congruence.
    + intros [v Hv]. rewrite Hv in Hc. destruct_and?. intros ->. congruence.
  - unfold view_calls. cbn [type layer]. now rewrite Hfs.
Qed.

Lemma is_segment_ext (u u' : World) (seg : ptr) :
  data_of u' seg = data_of u seg →
  dom (heap u') = dom (heap u) →
  is_segment u' seg = is_segment u seg.
Proof.
  intros Hd Hdom. unfold is_segment. rewrite Hd. do 3 f_equal.
  apply bool_decide_ext. rewrite !Forall_forall.
  split; intros Hlive p Hp; specialize (Hlive p Hp);
    rewrite <- elem_of_dom in *; congruence.
Qed.

Lemma segment_layer_update_relaid (u : World) (seg : ptr) :
  is_segment u seg = true → Relaid u seg (segment_layer_update seg u).
Proof.
  intros Hseg. pose proof Hseg as Hseg'.
  apply is_segment_spec in Hseg as (S & HS & Hnd & Hlive & Hl & Hm).
  rewrite (segment_layer_update_run u seg S HS Hl Hm).
  assert (Hd : data_of u seg = data S) by (unfold data_of; now rewrite HS).
  set (final := composed _ _ _).
  set (m := relaid u (data S)).
  assert (Hms : m !! seg = Some S).
  { subst m. unfold relaid. destruct (view_of (type (data S))); [|done].
    now rewrite lookup_alter_ne. }
  assert (Hmdom : dom m = dom (heap u)).
  { subst m. unfold relaid. destruct (view_of (type (data S))); [|done].
    now rewrite dom_alter_L. }
  assert (Hfs : frame_of u seg = frame S) by (unfold frame_of; now rewrite HS).
  set (u' := with_heap u (alter (with_frame final) seg m)).
  assert (Hs' : heap u' !! seg = Some (with_frame final S)).
  { subst u'. cbn [with_heap heap]. now rewrite lookup_alter_eq, Hms. }
  assert (Hfs' : frame_of u' seg = final) by (unfold frame_of; now rewrite Hs').
  assert (Hd' : data_of u' seg = data S) by (unfold data_of; now rewrite Hs').
  assert (Hdom : dom (heap u') = dom (heap u)).
  { subst u'. cbn [with_heap heap]. now rewrite dom_alter_L. }
  assert (Hfc : frame_of u' (layer (data S)) =
                frame_of (with_heap u m) (layer (data S))).
  { subst u'. unfold frame_of. cbn [with_heap heap]. now rewrite lookup_alter_ne. }
  split; cbn [value after calls]; rewrite ?Hd; try done.
  - now rewrite (is_segment_ext u), Hseg' by (rewrite ?Hd, ?Hd'; done).
  - now rewrite Hfs', Hfs, Hfc.
  - intros p Hps Hpc. subst u' m. cbn [with_heap heap].
    rewrite lookup_alter_ne by done. unfold relaid, child_of in *.
    destruct (view_of (type (data S))); [|done].
    rewrite lookup_alter_ne; [done | set_solver].
  - intros S' HS'. rewrite HS in HS'. injection HS' as <-. now rewrite Hfs'.
  - intros v Hv. subst u' m. cbn [with_heap heap].
    rewrite lookup_alter_ne by done. unfold relaid. rewrite Hv.
    now rewrite lookup_alter_eq.
  - now rewrite Hfs'.
Qed.

Lemma lookup_restore (ps : list ptr) (old m : gmap N Layer) (p : ptr) :
  restore ps old m !! p = if decide (p ∈ ps) then old !! p else m !! p.
Proof.
  induction ps as [|q ps IH]; cbn [restore foldr].
  - now rewrite decide_False by set_solver.
  - fold (restore ps old m). destruct (decide (q = p)) as [->|Hq].
    + rewrite lookup_partial_alter_eq. now rewrite decide_True by set_solver.
    + rewrite lookup_partial_alter_ne by done. rewrite IH.
      destruct (decide (p ∈ ps)).
      * now rewrite decide_True by set_solver.
      * now rewrite decide_False by set_solver.
Qed.

Lemma is_segment_live (u u' : World) (seg : ptr) :
  is_segment u seg = true →
  (∀ p, p ∈ owned seg (data_of u seg) → heap u' !! p = heap u !! p) →
  is_segment u' seg = true ∧ data_of u' seg = data_of u seg.
Proof.
  intros Hs Hsame.
  assert (Hd : data_of u' seg = data_of u seg).
  { unfold data_of. rewrite Hsame; [done |]. unfold owned. set_solver. }
  split; [| exact Hd].
  apply is_segment_spec in Hs as (S & HS & Hnd & Hlive & Hl & Hm).
  assert (HdS : data_of u seg = data S) by (unfold data_of; now rewrite HS).
  rewrite HdS in Hsame.
  apply is_segment_spec. exists S. split_and!; try done.
  - rewrite Hsame; [done |]. unfold owned. set_solver.
  - intros p Hp. rewrite (Hsame p Hp). now apply Hlive.
Qed.

Lemma happen_alive (u1 u : World) (seg : ptr) (ev : Event) :
  Alive u1 seg u → Alive u1 seg (happen seg u ev).
Proof.
  intros [Hs Hd]. destruct ev as [|r|c|m]; cbn [happen].
  - destruct (segment_layer_update_relaid u seg Hs). split; congruence.
  - assert (Hd' : data_of (after (layer_set_frame seg r u)) seg = data_of u seg).
    { unfold data_of, layer_set_frame, act. cbn [after with_heap heap].
      rewrite lookup_alter_eq. now destruct (heap u !! seg). }
    assert (Hdom' : dom (heap (after (layer_set_frame seg r u))) = dom (heap u)).
    { unfold layer_set_frame, act. cbn [after with_heap heap]. now rewrite dom_alter_L. }
    split; [| congruence].
    now rewrite (is_segment_ext u).
  - split; [| done]. now rewrite (is_segment_ext u).
  - destruct (is_segment_live u
                (with_heap u (restore (owned seg (data_of u seg)) (heap u) m)) seg Hs)
      as [Hs' Hd'].
    + intros p Hp. cbn [with_heap heap]. rewrite lookup_restore.
      now rewrite decide_True.
    + split; congruence.
Qed.

Lemma lifetime_alive (u1 : World) (seg : ptr) (evs : list Event) :
  is_segment u1 seg = true → Alive u1 seg (lifetime seg evs u1).
Proof.
  intros Hs. unfold lifetime.
  assert (Hstart : Alive u1 seg u1) by (split; done).
  revert Hstart. generalize u1 at 2 4 as u.
  induction evs as [|ev evs IH]; intros u Hu; cbn [foldl]; [done |].
  apply IH. now apply happen_alive.
Qed.

Lemma happen_quiet_dom (u : World) (seg : ptr) (ev : Event) :
  is_segment u seg = true → quiet ev = true →
  dom (heap (happen seg u ev)) = dom (heap u).
Proof.
  intros Hs Hq. destruct ev as [|r|c|m]; cbn [happen]; try discriminate.
  - apply (relaid_dom _ _ _ (segment_layer_update_relaid u seg Hs)).
  - unfold layer_set_frame, act. cbn [after with_heap heap]. now rewrite dom_alter_L.
  - reflexivity.
Qed.

Lemma lifetime_quiet_dom (u1 : World) (seg : ptr) (evs : list Event) :
  is_segment u1 seg = true → forallb quiet evs = true →
  dom (heap (lifetime seg evs u1)) = dom (heap u1).
Proof.
  unfold lifetime. revert u1.
  induction evs as [|ev evs IH]; intros u Hs Hq; cbn [foldl]; [done |].
  cbn [forallb] in Hq. apply andb_true_iff in Hq as [Hq Hqs].
  rewrite IH; [now apply happen_quiet_dom | | exact Hqs].
  apply (happen_alive u u seg ev). now split.
Qed.

Lemma dom_release (p : ptr) (m : gmap N Layer) : dom (release p m) = dom m ∖ {[p]}.
Proof. unfold release. now rewrite dom_fmap_L, dom_delete_L. Qed.

Lemma lookup_release (p q : ptr) (m : gmap N Layer) :
  release p m !! q = if decide (p = q) then None else without_child p <$> m !! q.
Proof.
  unfold release. rewrite lookup_fmap. case_decide.
  - subst. now rewrite lookup_delete_eq.
  - now rewrite lookup_delete_ne.
Qed.

Lemma segment_layer_destroy_destroyed (u : World) (seg : ptr) :
  is_segment u seg = true → Destroyed u seg (segment_layer_destroy seg u).
Proof.
  intros Hseg.
  apply is_segment_spec in Hseg as (S & HS & Hnd & Hlive & Hl & Hm).
  rewrite (segment_layer_destroy_run u seg S HS Hnd Hm).
  assert (Hd : data_of u seg = data S) by (unfold data_of; now rewrite HS).
  split; cbn [value after calls with_heap heap conversation]; rewrite ?Hd; try done.
  - unfold released_label, released_child, owned, child_of, label_of.
    destruct (view_of (type (data S))), (is_set (assistant_label_layer (data S)));
      rewrite ?dom_release; set_solver.
  - intros p L'. unfold released_label, released_child.
    destruct (view_of (type (data S))), (is_set (assistant_label_layer (data S)));
      rewrite ?lookup_release; repeat case_decide; try done;
      destruct (heap u !! p) as [L|]; cbn; try done;
      intros [= <-]; eexists; split; try done.
Qed.

Ltac blind_step :=
  lazymatch goal with
  | |- wp (load _) _ _ =>
      unfold load; eapply wp_peek; [reflexivity |]; cbv beta
  | |- wp (layer_get_frame _) _ _ =>
      unfold layer_get_frame; eapply wp_peek; [reflexivity |]; cbv beta
  | |- wp (if ENABLE_FEATURE_MAPS then _ else _) _ _ => destruct ENABLE_FEATURE_MAPS
  | |- wp (if is_set ?p then _ else _) _ _ => destruct (is_set p)
  | |- wp (match type ?d with _ => _ end ≫= _) _ _ => apply wp_bind; destruct (type d)
  | |- wp (match type ?d with _ => _ end) _ _ => destruct (type d)
  | _ => step
  end.

Ltac shape := cbn [calls app]; repeat constructor.

Lemma segment_layer_update_calls (u : World) (seg : ptr) :
  Forall update_call (calls (segment_layer_update seg u)).
Proof.
  pattern (segment_layer_update seg u). apply wp_post.
  unfold segment_layer_update. repeat blind_step; shape.
Qed.

Lemma segment_layer_destroy_calls (u : World) (seg : ptr) :
  Forall destroy_call (calls (segment_layer_destroy seg u)).
Proof.
  pattern (segment_layer_destroy seg u). apply wp_post.
  unfold segment_layer_destroy. repeat blind_step; shape.
Qed.

Lemma segment_layer_get_entry_run (u : World) (seg : ptr) :
  segment_layer_get_entry seg u = mkOutcome (entry (data_of u seg)) u [].
Proof. reflexivity. Qed.

Lemma int16_fits (z : Z) : (-32768 ≤ z ≤ 32767)%Z → int16 z = z.
Proof. intros Hz. unfold int16. rewrite Z.mod_small; lia. Qed.

Lemma int16_range (z : Z) : (-32768 ≤ int16 z ≤ 32767)%Z.
Proof.
  unfold int16. pose proof (Z.mod_pos_bound (z + 32768) 65536). lia.
Qed.

Lemma composed_h (o : GPoint) (child : GRect) (lab : bool) :
  h (size (composed o child lab)) =
  if lab then int16 (h (size child) + NAME_HEIGHT) else h (size child).
Proof. unfold composed. now destruct lab. Qed.

Lemma composed_h_fits (o : GPoint) (child : GRect) (lab : bool) :
  (-32768 ≤ h (size child))%Z →
  (h (size child) + (if lab then NAME_HEIGHT else 0) ≤ 32767)%Z →
  h (size (composed o child lab)) =
  (h (size child) + if lab then NAME_HEIGHT else 0)%Z.
Proof.
  intros Hlo Hhi. rewrite composed_h. unfold NAME_HEIGHT in *. destruct lab.
  - apply int16_fits. lia.
  - lia.
Qed.

Lemma composed_w (o : GPoint) (child : GRect) (lab : bool) :
  w (size (composed o child lab)) = w (size child).
Proof. unfold composed. now destruct lab. Qed.

Lemma composed_origin (o : GPoint) (child : GRect) (lab : bool) :
  origin (composed o child lab) = o.
Proof. unfold composed. now destruct lab, o. Qed.

Lemma filter_none {A} (f : A → bool) (Q : A → Prop) (l : list A) :
  (∀ a, Q a → f a = false) → Forall Q l → List.filter f l = [].
Proof.
  intros HQ Hl. induction Hl as [|a l Ha _ IH]; [done |].
  cbn. now rewrite (HQ a Ha).
Qed.

Lemma classify_calls_filter (f : Call → bool) (e : ptr) (en : ConversationEntry) :
  List.filter f (classify_calls e en) =
  List.filter f [conversation_entry_get_type_call e]
  ++ (if is_widget_entry en
      then List.filter f [conversation_entry_get_widget_call e] else [])
  ++ match spec_table ENABLE_FEATURE_MAPS en with
     | Some _ => []
     | None =>
         List.filter f
           [conversation_entry_get_type_call e;
            BOBBY_LOG_call APP_LOG_LEVEL_WARNING "Unknown entry type %d."
              (LogEntryType (entry_type en))]
     end.
Proof.
  unfold classify_calls, is_widget_entry. rewrite !List.filter_app.
  destruct (entry_type en), (spec_table ENABLE_FEATURE_MAPS en); reflexivity.
Qed.

(** The life of a segment after its construction. *)
Lemma lived (u : World) (rect : GRect) (e : ptr) (lab : bool) (evs : list Event) :
  let o := segment_layer_create rect e lab u in
  Alive (after o) (value o) (lifetime (value o) evs (after o)).
Proof.
  intros o. apply lifetime_alive.
  apply (built_segment _ _ _ _ _ (segment_layer_create_built u rect e lab)).
Qed.

Lemma lived_quiet (u : World) (rect : GRect) (e : ptr) (lab : bool) (evs : list Event) :
  let o := segment_layer_create rect e lab u in
  forallb quiet evs = true →
  dom (heap (lifetime (value o) evs (after o))) = dom (heap (after o)).
Proof.
  intros o. apply lifetime_quiet_dom.
  apply (built_segment _ _ _ _ _ (segment_layer_create_built u rect e lab)).
Qed.

(** C1.  Classification follows the table of the specification: an entry
    the table recognises is given the variant of its row, and two widget
    entries are given the same variant only if they have the same widget
    sub-type. *)
Theorem prv_get_segment_type_table (u : World) (e : ptr) (t : SegmentType) :
  spec_table ENABLE_FEATURE_MAPS (conversation u e) = Some t →
  value (prv_get_segment_type e u) = t ∧
  ∀ (u' : World) (e' : ptr),
    entry_type (conversation u e) = EntryTypeWidget →
    entry_type (conversation u' e') = EntryTypeWidget →
    value (prv_get_segment_type e' u') = t →
    widget_type (entry_widget (conversation u' e')) =
    widget_type (entry_widget (conversation u e)).
Proof.
  intros Ht. rewrite prv_get_segment_type_run, Ht. split; [reflexivity |].
  intros u' e' Hw Hw'. rewrite prv_get_segment_type_run. cbn [value].
  revert Ht. unfold spec_table. rewrite Hw, Hw'.
  destruct (widget_type (entry_widget (conversation u e))),
           (widget_type (entry_widget (conversation u' e')));
    destruct ENABLE_FEATURE_MAPS; cbn; congruence.
Qed.

(** C9.  The widget accessor is called exactly when the entry is a widget
    entry, and then on that entry; construction makes no other such call,
    and update, destroy and get_entry make none at all. *)
Theorem widget_accessor_guarded (u : World) (e : ptr) (rect : GRect)
    (lab : bool) (seg : ptr) :
  List.filter is_get_widget (calls (prv_get_segment_type e u)) =
    (if is_widget_entry (conversation u e)
     then [conversation_entry_get_widget_call e] else []) ∧
  List.filter is_get_widget (calls (segment_layer_create rect e lab u)) =
    List.filter is_get_widget (calls (prv_get_segment_type e u)) ∧
  List.filter is_get_widget (calls (segment_layer_update seg u)) = [] ∧
  List.filter is_get_widget (calls (segment_layer_destroy seg u)) = [] ∧
  List.filter is_get_widget (calls (segment_layer_get_entry seg u)) = [].
Proof.
  rewrite prv_get_segment_type_run. cbn [calls].
  assert (Hc : List.filter is_get_widget (classify_calls e (conversation u e)) =
               if is_widget_entry (conversation u e)
               then [conversation_entry_get_widget_call e] else []).
  { rewrite classify_calls_filter.
    destruct (is_widget_entry _), (spec_table _ _); reflexivity. }
  split_and!.
  - exact Hc.
  - rewrite (built_calls _ _ _ _ _ (segment_layer_create_built u rect e lab)).
    cbv zeta. rewrite !List.filter_app. unfold view_calls.
    destruct lab, (view_of _); cbn [List.filter is_get_widget app];
      now rewrite ?app_nil_r.
  - apply (filter_none _ update_call).
    + intros c. now destruct c.
    + apply segment_layer_update_calls.
  - apply (filter_none _ destroy_call).
    + intros c. now destruct c.
    + apply segment_layer_destroy_calls.
  - reflexivity.
Qed.

Ltac built o :=
  lazymatch eval cbv delta [o] in o with
  | segment_layer_create ?rect ?e ?lab ?u =>
      let B := fresh "B" in
      pose proof (segment_layer_create_built u rect e lab) as B;
      change (Built u rect e lab o) in B; clearbody o;
      destruct B
        as [Be Bt Bl Bn Bs Bc Bf Bch Bnull Bll Bchildren Bdom Bfresh Bold Bcalls]
  end.

(** C2.  Classification is fail-soft.  For an entry outside the table it
    returns [SegmentTypeNone], leaves the world as it was, and its one log
    line is the warning, written last.  No operation of the component ever
    writes another line at warning level or above: construction writes the
    warning of its classification and nothing else, and update, destroy and
    the accessor write none. *)
Theorem prv_get_segment_type_fail_soft (u : World) (e : ptr) :
  spec_table ENABLE_FEATURE_MAPS (conversation u e) = None →
  let o := prv_get_segment_type e u in
  let warning (en : ConversationEntry) :=
    BOBBY_LOG_call APP_LOG_LEVEL_WARNING "Unknown entry type %d."
      (LogEntryType (entry_type en)) in
  (value o = SegmentTypeNone ∧ after o = u ∧
   List.filter is_log (calls o) = [warning (conversation u e)] ∧
   last (calls o) = Some (warning (conversation u e))) ∧
  ∀ (u' : World) (e' : ptr) (rect : GRect) (lab : bool) (seg : ptr),
    List.filter is_alarm (calls (prv_get_segment_type e' u')) =
      match spec_table ENABLE_FEATURE_MAPS (conversation u' e') with
      | Some _ => []
      | None => [warning (conversation u' e')]
      end ∧
    List.filter is_alarm (calls (segment_layer_create rect e' lab u')) =
      List.filter is_alarm (calls (prv_get_segment_type e' u')) ∧
    List.filter is_alarm (calls (segment_layer_update seg u')) = [] ∧
    List.filter is_alarm (calls (segment_layer_destroy seg u')) = [] ∧
    List.filter is_alarm (calls (segment_layer_get_entry seg u')) = [].
Proof.
  intros Hn o warning. subst o warning. cbv beta.
  rewrite prv_get_segment_type_run. cbn [value after calls]. split.
  - rewrite Hn. split_and!; try reflexivity.
    + rewrite classify_calls_filter, Hn.
      now destruct (is_widget_entry _).
    + unfold classify_calls. rewrite Hn.
      destruct (entry_type (conversation u e)); reflexivity.
  - intros u' e' rect lab seg. rewrite prv_get_segment_type_run. cbn [calls].
    split_and!.
    + rewrite classify_calls_filter.
      destruct (is_widget_entry _), (spec_table _ _); reflexivity.
    + rewrite (built_calls _ _ _ _ _ (segment_layer_create_built u' rect e' lab)).
      cbv zeta. rewrite !List.filter_app. unfold view_calls.
      destruct lab, (view_of _); cbn [List.filter is_alarm app];
        now rewrite ?app_nil_r.
    + apply (filter_none _ update_call); [| apply segment_layer_update_calls].
      intros c. now destruct c.
    + apply (filter_none _ destroy_call); [| apply segment_layer_destroy_calls].
      intros c. destruct c as [| |[]| | | | | | | | | |]; now cbn.
    + reflexivity.
Qed.


(** C4.  Frame composition.  Right after construction, and after every
    update at any point of the segment's life, the height of the segment's
    frame is the height of its child's frame, made [NAME_HEIGHT] taller
    under a label by an addition in the 16-bit height field: it is the
    child's height plus the label height whenever that sum is at most 32767,
    and wraps around beyond.  The width is the child's; construction keeps
    the origin of the input rect, an update keeps the origin the segment has
    when it is called. *)
Theorem frame_composition (u : World) (rect : GRect) (e : ptr)
    (assistant_label : bool) (evs : list Event) :
  let o := segment_layer_create rect e assistant_label u in
  let seg := value o in
  let d := data_of (after o) seg in
  let label_height := if assistant_label then NAME_HEIGHT else 0%Z in
  let taller (z : Z) := if assistant_label then int16 (z + NAME_HEIGHT) else z in
  let fits (z : Z) := (-32768 ≤ z ∧ z + label_height ≤ 32767)%Z in
  (is_set (assistant_label_layer d) = assistant_label ∧
   h (size (frame_of (after o) seg)) = taller (h (size (frame_of (after o) (layer d)))) ∧
   (fits (h (size (frame_of (after o) (layer d)))) →
    h (size (frame_of (after o) seg)) =
      (h (size (frame_of (after o) (layer d))) + label_height)%Z) ∧
   w (size (frame_of (after o) seg)) = w (size (frame_of (after o) (layer d))) ∧
   origin (frame_of (after o) seg) = origin rect) ∧
  (let u1 := lifetime seg evs (after o) in
   let u2 := after (segment_layer_update seg u1) in
   h (size (frame_of u2 seg)) = taller (h (size (frame_of u2 (layer d)))) ∧
   (fits (h (size (frame_of u2 (layer d)))) →
    h (size (frame_of u2 seg)) = (h (size (frame_of u2 (layer d))) + label_height)%Z) ∧
   w (size (frame_of u2 seg)) = w (size (frame_of u2 (layer d))) ∧
   origin (frame_of u2 seg) = origin (frame_of u1 seg)).
Proof.
  intros o seg d label_height taller fits. subst seg d label_height taller fits.
  pose proof (lived u rect e assistant_label evs) as [As Ad].
  fold o in As, Ad. built o. split.
  - rewrite Bf. split_and!.
    + exact Bl.
    + now rewrite composed_h.
    + intros [Hlo Hhi]. now apply composed_h_fits.
    + now rewrite composed_w.
    + now rewrite composed_origin.
  - intros u1 u2. subst u1 u2.
    destruct (segment_layer_update_relaid _ _ As) as [_ _ _ _ Rf _ _ _ _].
    rewrite Rf, Ad, Bl. split_and!.
    + now rewrite composed_h.
    + intros [Hlo Hhi]. now apply composed_h_fits.
    + now rewrite composed_w.
    + now rewrite composed_origin.
Qed.

Lemma classify_calls_allocated (e : ptr) (en : ConversationEntry) :
  concat (map allocated (classify_calls e en)) = [].
Proof.
  unfold classify_calls.
  destruct (entry_type en), (spec_table ENABLE_FEATURE_MAPS en); reflexivity.
Qed.

(** C5.  Destruction, at any point of a segment's life, calls the one view
    destructor that belongs to the type chosen at construction (none for
    [SegmentTypeNone]), destroys the label exactly if one was created, and
    releases the segment's own layer last.  The objects it releases are the
    objects construction allocated, each once and each still live; they are
    what leaves the view tree, and if nothing else changed the tree in
    between, the live objects are again those from before the construction. *)
Theorem segment_layer_destroy_releases (u : World) (rect : GRect) (e : ptr)
    (assistant_label : bool) (evs : list Event) :
  let o := segment_layer_create rect e assistant_label u in
  let seg := value o in
  let u1 := lifetime seg evs (after o) in
  let d := data_of u1 seg in
  let o' := segment_layer_destroy seg u1 in
  calls o' =
    [BOBBY_LOG_call APP_LOG_LEVEL_INFO "destroying SegmentLayer %p." (LogPointer seg)]
    ++ match view_of (variant (conversation u e)) with
       | Some v => [view_destroy_call v (layer d)]
       | None => []
       end
    ++ (if assistant_label then [text_layer_destroy_call (assistant_label_layer d)] else [])
    ++ [layer_destroy_call seg] ∧
  concat (map released (calls o')) ≡ₚ concat (map allocated (calls o)) ∧
  NoDup (concat (map released (calls o'))) ∧
  Forall (λ p, is_Some (heap u1 !! p)) (concat (map released (calls o'))) ∧
  dom (heap (after o')) =
    dom (heap u1) ∖ list_to_set (concat (map released (calls o'))) ∧
  (forallb quiet evs = true → dom (heap (after o')) = dom (heap u)).
Proof.
  intros o seg u1 d o'. subst seg d.
  pose proof (lived u rect e assistant_label evs) as [As Ad].
  pose proof (lived_quiet u rect e assistant_label evs) as Adom.
  cbv zeta in Adom.
  fold o in As, Ad, Adom. fold u1 in As, Ad, Adom. built o.
  destruct (segment_layer_destroy_destroyed _ _ As) as [Dcalls Ddom _ _].
  fold o' in Dcalls, Ddom. clearbody o' u1. cbv zeta in Dcalls.
  rewrite Ad in *.
  set (d := data_of (after o) (value o)) in *.
  pose proof As as As'.
  apply is_segment_spec in As' as (S & HS & Hnd & Hlive & _ & _).
  assert (Hd : data S = d).
  { subst d. rewrite <- Ad. unfold data_of. now rewrite HS. }
  rewrite Hd in Hnd, Hlive.
  assert (Hrel : concat (map released (calls o')) = owned (value o) d).
  { rewrite Dcalls. unfold view_calls, owned, child_of, label_of.
    destruct (view_of (type d)), (is_set (assistant_label_layer d)); reflexivity. }
  assert (Hall : concat (map allocated (calls o)) ≡ₚ owned (value o) d).
  { rewrite Bcalls. cbv zeta. fold d.
    rewrite !map_app, !concat_app, classify_calls_allocated.
    unfold view_calls, owned, child_of, label_of. rewrite Bl.
    destruct assistant_label, (view_of (type d)); cbn; solve_Permutation. }
  split_and!.
  - rewrite Dcalls. unfold view_calls. now rewrite Bt, Bl.
  - now rewrite Hrel, Hall.
  - now rewrite Hrel.
  - rewrite Hrel. now apply Forall_forall.
  - now rewrite Ddom, Hrel.
  - intros Hq. rewrite Ddom, (Adom Hq), Bdom.
    assert (Hdisj : ∀ p, p ∈ owned (value o) d → p ∉ dom (heap u)).
    { intros p Hp. apply not_elem_of_dom. now apply Bfresh. }
    generalize dependent (owned (value o) d). intros l. intros. set_solver.
Qed.

(** C6.  Update is idempotent on the frame: when a second update, run right
    after a first, leaves the child's frame as the first left it, the
    segment's frame is the same after both. *)
Theorem segment_layer_update_idempotent (u : World) (rect : GRect) (e : ptr)
    (assistant_label : bool) (evs : list Event) :
  let o := segment_layer_create rect e assistant_label u in
  let seg := value o in
  let u1 := lifetime seg evs (after o) in
  let d := data_of u1 seg in
  let o1 := segment_layer_update seg u1 in
  let o2 := segment_layer_update seg (after o1) in
  frame_of (after o2) (layer d) = frame_of (after o1) (layer d) →
  conversation (after o1) = conversation u1 ∧
  frame_of (after o2) seg = frame_of (after o1) seg.
Proof.
  intros o seg u1 d o1 o2 Hchild. subst seg d.
  pose proof (lived u rect e assistant_label evs) as [As _].
  fold o in As. fold u1 in As. clearbody o u1.
  destruct (segment_layer_update_relaid _ _ As) as [Rd _ Rs Rc Rf _ _ _ _].
  fold o1 in Rd, Rs, Rc, Rf. clearbody o1.
  destruct (segment_layer_update_relaid _ _ Rs) as [_ _ _ _ Rf' _ _ _ _].
  fold o2 in Rf'. clearbody o2.
  split; [exact Rc |].
  rewrite Rf', Rd, Hchild, Rf. now rewrite composed_origin.
Qed.

(** C7.  Construction with a label creates the label at the top, with the
    fixed name as its text, hands the child view the input size moved down
    by [NAME_HEIGHT] and with the height [h - NAME_HEIGHT] as the 16-bit
    field of the frame holds it, and makes the segment [NAME_HEIGHT] taller
    than the child by an addition in the 16-bit height field: the child is
    handed exactly [h - NAME_HEIGHT] unless that is below -32768, and the
    segment is exactly [NAME_HEIGHT] taller than the child unless that is
    above 32767.  Construction without a label creates no label and hands
    the child the whole input size. *)
Theorem segment_layer_create_label (u : World) (rect : GRect) (e : ptr) :
  (let o := segment_layer_create rect e true u in
   let seg := value o in
   let d := data_of (after o) seg in
   let lbl := assistant_label_layer d in
   let child_frame :=
     GRectOf 0 NAME_HEIGHT (w (size rect)) (int16 (h (size rect) - NAME_HEIGHT)) in
   is_set lbl = true ∧
   heap (after o) !! lbl =
     Some {| frame := GRectOf 5 0 (w (size rect)) NAME_HEIGHT; children := [];
             text := "Bobby"; subject := NULL; data := zero_data |} ∧
   (∃ S, heap (after o) !! seg = Some S ∧ head (children S) = Some lbl) ∧
   List.filter is_label_create (calls o) =
     [btext_layer_create_call (GRectOf 5 0 (w (size rect)) NAME_HEIGHT) lbl] ∧
   layer_add_child_call seg lbl ∈ calls o ∧
   text_layer_set_text_call lbl "Bobby" ∈ calls o ∧
   match view_of (variant (conversation u e)) with
   | Some v =>
       List.filter is_view_create (calls o) =
         [view_create_call v child_frame e (layer d)] ∧
       frame_of (after o) (layer d) = natural_frame v child_frame (conversation u e)
   | None => List.filter is_view_create (calls o) = []
   end ∧
   ((-32768 ≤ h (size rect) - NAME_HEIGHT ∧ h (size rect) ≤ 32767)%Z →
    child_frame =
      GRectOf 0 NAME_HEIGHT (w (size rect)) (h (size rect) - NAME_HEIGHT)) ∧
   h (size (frame_of (after o) seg)) =
     int16 (h (size (frame_of (after o) (layer d))) + NAME_HEIGHT) ∧
   ((-32768 ≤ h (size (frame_of (after o) (layer d))) ∧
     h (size (frame_of (after o) (layer d))) + NAME_HEIGHT ≤ 32767)%Z →
    h (size (frame_of (after o) seg)) =
      (h (size (frame_of (after o) (layer d))) + NAME_HEIGHT)%Z)) ∧
  (let o := segment_layer_create rect e false u in
   let seg := value o in
   let d := data_of (after o) seg in
   let child_frame := GRectOf 0 0 (w (size rect)) (h (size rect)) in
   assistant_label_layer d = NULL ∧
   label_of d = [] ∧
   List.filter is_label_create (calls o) = [] ∧
   match view_of (variant (conversation u e)) with
   | Some v =>
       List.filter is_view_create (calls o) =
         [view_create_call v child_frame e (layer d)]
   | None => List.filter is_view_create (calls o) = []
   end ∧
   h (size (frame_of (after o) seg)) = h (size (frame_of (after o) (layer d)))).
Proof.
  assert (Hcf : ∀ f, List.filter f [] = @nil Call) by reflexivity.
  split.
  - intros o seg d lbl child_frame. subst seg d lbl child_frame. built o.
    cbv zeta in Bcalls.
    set (d := data_of (after o) (value o)) in *.
    destruct (is_segment_spec (after o) (value o)) as [Hspec _].
    destruct (Hspec Bs) as (S & HS & _).
    split_and!.
    + exact Bl.
    + now rewrite (Bll eq_refl).
    + exists S. split; [exact HS |]. rewrite (Bchildren S HS).
      assert (Hd : data S = d) by (subst d; unfold data_of; now rewrite HS).
      rewrite Hd. unfold label_of. now rewrite Bl.
    + rewrite Bcalls, !List.filter_app, classify_calls_filter. unfold view_calls.
      destruct (is_widget_entry _), (spec_table _ _), (view_of (type d)); reflexivity.
    + rewrite Bcalls. set_solver.
    + rewrite Bcalls. set_solver.
    + rewrite <- Bt. destruct (view_of (type d)) as [v|] eqn:Ev.
      * rewrite Bt in Ev. split.
        -- rewrite Bcalls, !List.filter_app, classify_calls_filter. unfold view_calls.
           rewrite Bt, Ev.
           destruct (is_widget_entry _), (spec_table _ _); reflexivity.
        -- unfold frame_of. now rewrite (Bch v Ev).
      * rewrite Bcalls, !List.filter_app, classify_calls_filter. unfold view_calls.
        rewrite Ev.
        destruct (is_widget_entry _), (spec_table _ _); reflexivity.
    + intros [Hlo Hhi]. rewrite int16_fits; [reflexivity |].
      unfold NAME_HEIGHT in *. lia.
    + now rewrite Bf, composed_h.
    + intros [Hlo Hhi]. rewrite Bf. now apply (composed_h_fits _ _ true).
  - intros o seg d child_frame. subst seg d child_frame. built o.
    cbv zeta in Bcalls.
    set (d := data_of (after o) (value o)) in *.
    assert (Hl : assistant_label_layer d = NULL).
    { unfold is_set in Bl. apply negb_false_iff, N.eqb_eq in Bl. exact Bl. }
    split_and!.
    + exact Hl.
    + unfold label_of. now rewrite Bl.
    + rewrite Bcalls, !List.filter_app, classify_calls_filter. unfold view_calls.
      destruct (is_widget_entry _), (spec_table _ _), (view_of (type d)); reflexivity.
    + rewrite <- Bt. unfold child_rect in Bcalls.
      rewrite Bcalls, !List.filter_app, classify_calls_filter. unfold view_calls.
      destruct (is_widget_entry _), (spec_table _ _), (view_of (type d)); reflexivity.
    + now rewrite Bf, composed_h.
Qed.

Lemma variant_deterministic (en en' : ConversationEntry) :
  entry_type en = entry_type en' →
  widget_type (entry_widget en) = widget_type (entry_widget en') →
  variant en = variant en'.
Proof. unfold variant, spec_table. now intros -> ->. Qed.

(** C8.  The type of a segment is computed once, at construction, by the
    one classification of the entry, and is a function of the entry's type
    and widget sub-type as they are then.  Nothing changes it afterwards:
    not an update, not the accessor, not a change of the conversation behind
    the entry pointer, and destroy writes no data block before it releases
    the segment. *)
Theorem variant_tag_fixed (u : World) (rect : GRect) (e : ptr)
    (assistant_label : bool) (evs : list Event) :
  let o := segment_layer_create rect e assistant_label u in
  let seg := value o in
  let u1 := lifetime seg evs (after o) in
  (type (data_of (after o) seg) = variant (conversation u e) ∧
   (∃ rest,
      calls o = [blayer_create_with_data_call rect seg]
                ++ calls (prv_get_segment_type e u) ++ rest ∧
      List.filter is_get_type rest = [] ∧ List.filter is_get_widget rest = []) ∧
   ∀ en en',
     entry_type en = entry_type en' →
     widget_type (entry_widget en) = widget_type (entry_widget en') →
     variant en = variant en') ∧
  (type (data_of u1 seg) = type (data_of (after o) seg) ∧
   type (data_of (after (segment_layer_update seg u1)) seg) = type (data_of u1 seg) ∧
   (∀ c : ptr → ConversationEntry,
      type (data_of (after (segment_layer_update seg (with_conversation u1 c))) seg) =
      type (data_of (after o) seg)) ∧
   after (segment_layer_get_entry seg u1) = u1 ∧
   List.filter is_get_type (calls (segment_layer_update seg u1)) = [] ∧
   List.filter is_get_type (calls (segment_layer_destroy seg u1)) = [] ∧
   (∀ p L',
      heap (after (segment_layer_destroy seg u1)) !! p = Some L' →
      ∃ L, heap u1 !! p = Some L ∧ data L' = data L) ∧
   heap (after (segment_layer_destroy seg u1)) !! seg = None).
Proof.
  intros o seg u1. subst seg.
  pose proof (lived u rect e assistant_label evs) as [As Ad].
  fold o in As, Ad. fold u1 in As, Ad.
  assert (Hc : ∀ c, Alive (after o) (value o) (with_conversation u1 c)).
  { intros c. apply (happen_alive _ _ _ (Changed c)). now split. }
  split.
  - built o. split_and!.
    + exact Bt.
    + rewrite prv_get_segment_type_run. cbn [calls]. cbv zeta in Bcalls.
      eexists. split; [exact Bcalls |]. unfold view_calls.
      rewrite !List.filter_app.
      destruct assistant_label, (view_of (type _)); split; reflexivity.
    + apply variant_deterministic.
  - clearbody o. split_and!.
    + now rewrite Ad.
    + now rewrite (relaid_data _ _ _ (segment_layer_update_relaid _ _ As)).
    + intros c. destruct (Hc c) as [Cs Cd].
      now rewrite (relaid_data _ _ _ (segment_layer_update_relaid _ _ Cs)), Cd.
    + reflexivity.
    + apply (filter_none _ update_call); [| apply segment_layer_update_calls].
      intros c. now destruct c.
    + apply (filter_none _ destroy_call); [| apply segment_layer_destroy_calls].
      intros c. now destruct c.
    + intros p L' HL'.
      destruct (destroyed_survivors _ _ _ (segment_layer_destroy_destroyed _ _ As)
                  p L' HL') as (L & HL & Hdata & _).
      eauto.
    + apply not_elem_of_dom.
      rewrite (destroyed_dom _ _ _ (segment_layer_destroy_destroyed _ _ As)).
      unfold owned. set_solver.
Qed.

(** C10.  An update changes the frame of the segment's layer and what the
    child's own update changes in the child, and nothing else: the data
    block (entry, type, label and union), the label, every other object and
    the conversation stay as they are, and the origin is the one the segment
    has when update is called, so after the container moved the segment to
    [r] it is the origin of [r].  The accessor returns the entry the segment
    was constructed with, before and after updates, and changes nothing. *)
Theorem segment_layer_update_frame_condition (u : World) (rect : GRect) (e : ptr)
    (assistant_label : bool) (evs : list Event) :
  let o := segment_layer_create rect e assistant_label u in
  let seg := value o in
  let u1 := lifetime seg evs (after o) in
  let d := data_of u1 seg in
  let u2 := after (segment_layer_update seg u1) in
  (data_of u2 seg = d ∧
   dom (heap u2) = dom (heap u1) ∧
   conversation u2 = conversation u1 ∧
   origin (frame_of u2 seg) = origin (frame_of u1 seg) ∧
   (∀ S, heap u1 !! seg = Some S →
         heap u2 !! seg = Some (with_frame (frame_of u2 seg) S)) ∧
   (is_set (assistant_label_layer d) = true →
    heap u2 !! assistant_label_layer d = heap u1 !! assistant_label_layer d) ∧
   (∀ p, p ≠ seg → p ∉ child_of d → heap u2 !! p = heap u1 !! p)) ∧
  (∀ r : GRect,
     let um := happen seg u1 (Moved r) in
     frame_of um seg = r ∧
     origin (frame_of (after (segment_layer_update seg um)) seg) = origin r) ∧
  (value (segment_layer_get_entry seg u1) = e ∧
   value (segment_layer_get_entry seg u2) = e ∧
   after (segment_layer_get_entry seg u1) = u1 ∧
   calls (segment_layer_get_entry seg u1) = []).
Proof.
  intros o seg u1 d u2. subst seg d.
  pose proof (lived u rect e assistant_label evs) as [As Ad].
  fold o in As, Ad. fold u1 in As, Ad.
  assert (Hm : ∀ r, Alive (after o) (value o) (happen (value o) u1 (Moved r))).
  { intros r. apply happen_alive. now split. }
  built o. clearbody u1.
  pose proof (segment_layer_update_relaid _ _ As) as R.
  set (o1 := segment_layer_update (value o) u1) in *. subst u2.
  clearbody o1. destruct R as [Rd Rdom Rs Rc Rf Ro Rself Rch Rcalls].
  pose proof As as As'.
  apply is_segment_spec in As' as (S & HS & Hnd & Hlive & Hl & _).
  assert (Hd : data_of u1 (value o) = data S) by (unfold data_of; now rewrite HS).
  split_and!; try done.
  - now rewrite Rf, composed_origin.
  - intros Hset. apply Ro.
    + rewrite Hd. intros Heq. rewrite <- Heq in Hnd.
      unfold owned, label_of in Hnd. rewrite <- Hd, Hset in Hnd.
      apply NoDup_app in Hnd as (_ & _ & Hnd). apply NoDup_cons_1_1 in Hnd.
      set_solver.
    + rewrite Hd. unfold owned, label_of in Hnd. rewrite <- Hd, Hset in Hnd.
      apply NoDup_app in Hnd as (_ & Hnd & _). rewrite <- Hd. set_solver.
  - intros r um. subst um. cbn [happen].
    assert (Hfr : frame_of (after (layer_set_frame (value o) r u1)) (value o) = r).
    { unfold frame_of, layer_set_frame, act. cbn [after with_heap heap].
      now rewrite lookup_alter_eq, HS. }
    split; [exact Hfr |].
    destruct (Hm r) as [Ms _]. cbn [happen] in Ms.
    rewrite (relaid_frame _ _ _ (segment_layer_update_relaid _ _ Ms)).
    now rewrite composed_origin, Hfr.
  - rewrite segment_layer_get_entry_run. cbn [value]. now rewrite Ad.
  - rewrite segment_layer_get_entry_run. cbn [value]. now rewrite Rd, Ad.
Qed.

(** ** Further facts about one segment *)

Lemma segment_layer_create_not_null (u : World) (rect : GRect) (e : ptr) (lab : bool) :
  let o := segment_layer_create rect e lab u in
  ∀ p, p ∈ owned_by (after o) (value o) → p ≠ NULL.
Proof.
  intros o p. subst o.
  destruct (segment_layer_create_run rect e lab u)
    as (seg & lbl & c & [Hs Ns] & Hl & Hc & ->).
  cbn [value after]. unfold owned_by, owned, child_of, label_of, data_of.
  destruct lab, (view_of (variant (conversation u e))) eqn:Ev;
    cbn [put_label put_child]; destruct_and?; subst; tidy;
    unfold seg_layer; tidy; rewrite ?Ev; set_solver.
Qed.

Lemma prv_get_segment_type_value (u : World) (e : ptr) :
  value (prv_get_segment_type e u) = variant (conversation u e).
Proof. now rewrite prv_get_segment_type_run. Qed.

Lemma prv_get_segment_type_calls (u : World) (e : ptr) :
  calls (prv_get_segment_type e u) = classify_calls e (conversation u e).
Proof. now rewrite prv_get_segment_type_run. Qed.

Lemma calls_quiet (Q : Call → Prop) (cs : list Call) :
  (∀ c, Q c → allocated c = [] ∧ released c = []) →
  Forall Q cs →
  concat (map allocated cs) = [] ∧ concat (map released cs) = [].
Proof.
  intros HQ Hcs. induction Hcs as [|c cs Hc _ [IHa IHr]]; [done |].
  destruct (HQ c Hc) as [Ha Hr]. cbn. now rewrite Ha, Hr, IHa, IHr.
Qed.

Lemma lifetime_keeps (u1 : World) (seg : ptr) (evs : list Event) (p : ptr) :
  is_segment u1 seg = true →
  p ∈ owned_by u1 seg → p ≠ seg → p ∉ child_of (data_of u1 seg) →
  heap (lifetime seg evs u1) !! p = heap u1 !! p.
Proof.
  intros Hs Hp Hps Hpc. unfold lifetime.
  assert (Hgen : ∀ u, Alive u1 seg u → heap u !! p = heap u1 !! p →
                 heap (foldl (happen seg) u evs) !! p = heap u1 !! p);
    [| apply Hgen; [split |]; done].
  induction evs as [|ev evs IH]; intros u Hu Hsame; cbn [foldl]; [done |].
  apply IH; [now apply happen_alive |].
  rewrite <- Hsame. destruct Hu as [Us Ud].
  destruct ev as [|r|c|m]; cbn [happen].
  - apply (relaid_others _ _ _ (segment_layer_update_relaid u seg Us)); [done |].
    now rewrite Ud.
  - unfold layer_set_frame, act. cbn [after with_heap heap].
    now rewrite lookup_alter_ne.
  - reflexivity.
  - cbn [with_heap heap]. rewrite lookup_restore, decide_True; [done |].
    now rewrite Ud.
Qed.

Lemma lifetime_self (u1 : World) (seg : ptr) (evs : list Event) (S : Layer) :
  is_segment u1 seg = true →
  heap u1 !! seg = Some S →
  ∃ fr, heap (lifetime seg evs u1) !! seg = Some (with_frame fr S).
Proof.
  intros Hs HS. unfold lifetime.
  assert (Hgen : ∀ u, Alive u1 seg u →
                 (∃ fr, heap u !! seg = Some (with_frame fr S)) →
                 ∃ fr, heap (foldl (happen seg) u evs) !! seg = Some (with_frame fr S)).
  2: { apply Hgen; [split; done |]. exists (frame S). rewrite HS. now destruct S. }
  induction evs as [|ev evs IH]; intros u Hu Hsame; cbn [foldl]; [done |].
  apply IH; [now apply happen_alive |].
  destruct Hsame as [fr Hfr]. destruct Hu as [Us Ud].
  destruct ev as [|r|c|m]; cbn [happen].
  - eexists.
    rewrite (relaid_self _ _ _ (segment_layer_update_relaid u seg Us) _ Hfr).
    reflexivity.
  - exists r. unfold layer_set_frame, act. cbn [after with_heap heap].
    now rewrite lookup_alter_eq, Hfr.
  - now exists fr.
  - exists fr. cbn [with_heap heap]. rewrite lookup_restore, decide_True; [done |].
    unfold owned. set_solver.
Qed.

(** X1.  Construction touches nothing that was there before: every object
    that was live stays as it was, the conversation is unchanged, and the
    objects of the new segment (its layer, its label and its child view) are
    new, not null, and the only objects added. *)
Theorem segment_layer_create_frame_condition (u : World) (rect : GRect) (e : ptr)
    (assistant_label : bool) :
  let o := segment_layer_create rect e assistant_label u in
  let seg := value o in
  seg ≠ NULL ∧
  is_segment (after o) seg = true ∧
  (∀ p, p ∈ owned_by (after o) seg → heap u !! p = None ∧ p ≠ NULL) ∧
  dom (heap (after o)) = dom (heap u) ∪ list_to_set (owned_by (after o) seg) ∧
  (∀ p L, heap u !! p = Some L → heap (after o) !! p = Some L) ∧
  conversation (after o) = conversation u.
Proof.
  intros o seg. subst seg.
  pose proof (segment_layer_create_not_null u rect e assistant_label) as Hnn.
  cbv zeta in Hnn. fold o in Hnn. built o.
  split_and!.
  - apply Hnn. unfold owned_by, owned. set_solver.
  - exact Bs.
  - intros p Hp. split; [now apply Bfresh | now apply Hnn].
  - exact Bdom.
  - exact Bold.
  - exact Bc.
Qed.

(** X2.  The calls of a construction, in order: the segment's layer is
    allocated, the entry is classified, the label (if asked for) is created,
    attached and given its text, the view of the segment's type (if it has
    one) is constructed, the union member is attached as a child, and the
    frame is set last.  The children of the segment's layer are the label
    and then the child. *)
Theorem segment_layer_create_trace (u : World) (rect : GRect) (e : ptr)
    (assistant_label : bool) :
  let o := segment_layer_create rect e assistant_label u in
  let seg := value o in
  let d := data_of (after o) seg in
  let lbl := assistant_label_layer d in
  let child_frame :=
    if assistant_label
    then GRectOf 0 NAME_HEIGHT (w (size rect)) (int16 (h (size rect) - NAME_HEIGHT))
    else GRectOf 0 0 (w (size rect)) (h (size rect)) in
  calls o =
    [blayer_create_with_data_call rect seg]
    ++ calls (prv_get_segment_type e u)
    ++ (if assistant_label
        then [btext_layer_create_call (GRectOf 5 0 (w (size rect)) NAME_HEIGHT) lbl;
              layer_add_child_call seg lbl;
              text_layer_set_text_call lbl "Bobby"]
        else [])
    ++ match view_of (type d) with
       | Some v => [view_create_call v child_frame e (layer d)]
       | None => []
       end
    ++ [layer_add_child_call seg (layer d);
        layer_set_frame_call seg (frame_of (after o) seg)] ∧
  type d = value (prv_get_segment_type e u) ∧
  ∃ S, heap (after o) !! seg = Some S ∧
       children S = (if assistant_label then [lbl] else []) ++ [layer d].
Proof.
  intros o seg d lbl child_frame. subst seg d lbl child_frame. built o.
  cbv zeta in Bcalls.
  rewrite prv_get_segment_type_value, prv_get_segment_type_calls.
  split_and!.
  - exact Bcalls.
  - exact Bt.
  - apply is_segment_spec in Bs as (S & HS & _). exists S. split; [exact HS |].
    rewrite (Bchildren S HS).
    assert (Hd : data S = data_of (after o) (value o)) by (unfold data_of; now rewrite HS).
    rewrite Hd. unfold label_of. rewrite Bl. now destruct assistant_label.
Qed.

(** X3.  A segment whose entry is classified as [SegmentTypeNone] (a deleted
    entry as much as an unknown one) has no child view, but the code treats
    the null union member as its child all the same: construction attaches
    the null handle and measures it, and so does every update, which calls
    no view and only sets the frame.  The size of the segment is the size
    the toolkit reports for the null handle, the height made [NAME_HEIGHT]
    taller under a label by an addition in the 16-bit height field. *)
Theorem segment_layer_childless (u : World) (rect : GRect) (e : ptr)
    (assistant_label : bool) (evs : list Event) :
  value (prv_get_segment_type e u) = SegmentTypeNone →
  let o := segment_layer_create rect e assistant_label u in
  let seg := value o in
  let d := data_of (after o) seg in
  let taller (z : Z) := if assistant_label then int16 (z + NAME_HEIGHT) else z in
  let u1 := lifetime seg evs (after o) in
  let o1 := segment_layer_update seg u1 in
  (layer d = NULL ∧
   List.filter is_view_create (calls o) = [] ∧
   layer_add_child_call seg NULL ∈ calls o ∧
   (∃ S, heap (after o) !! seg = Some S ∧ last (children S) = Some NULL) ∧
   w (size (frame_of (after o) seg)) = w (size (frame_of u NULL)) ∧
   h (size (frame_of (after o) seg)) = taller (h (size (frame_of u NULL)))) ∧
  (calls o1 = [layer_set_frame_call seg (frame_of (after o1) seg)] ∧
   w (size (frame_of (after o1) seg)) = w (size (frame_of u1 NULL)) ∧
   h (size (frame_of (after o1) seg)) = taller (h (size (frame_of u1 NULL)))).
Proof.
  rewrite prv_get_segment_type_value.
  intros Hv o seg d taller u1 o1. subst seg d taller.
  pose proof (lived u rect e assistant_label evs) as [As Ad].
  fold o in As, Ad. fold u1 in As, Ad. built o.
  rewrite Hv in *. specialize (Bn eq_refl). cbv zeta in Bcalls.
  set (d := data_of (after o) (value o)) in *.
  split.
  - split_and!.
    + exact Bn.
    + rewrite Bcalls, !List.filter_app, classify_calls_filter. unfold view_calls.
      rewrite Bt. cbn [view_of].
      destruct assistant_label, (is_widget_entry _), (spec_table _ _); reflexivity.
    + rewrite Bcalls, Bn. set_solver.
    + pose proof Bs as Bs'. apply is_segment_spec in Bs' as (S & HS & _).
      exists S. split; [exact HS |]. rewrite (Bchildren S HS).
      assert (Hd : data S = d) by (subst d; unfold data_of; now rewrite HS).
      rewrite Hd, Bn. now rewrite last_snoc.
    + now rewrite Bf, composed_w, Bn, Bnull.
    + now rewrite Bf, composed_h, Bn, Bnull.
  - clearbody u1.
    destruct (segment_layer_update_relaid _ _ As) as [_ _ _ _ Rf Ro _ _ Rcalls].
    fold o1 in Rf, Ro, Rcalls. clearbody o1. rewrite Ad in *. fold d in Rf, Ro, Rcalls.
    assert (Hnull : frame_of (after o1) NULL = frame_of u1 NULL).
    { unfold frame_of. rewrite Ro; [done | |].
      - apply is_segment_spec in As as (S & HS & _ & _ & Hl & _).
        assert (Hd : data S = d) by (rewrite <- Ad; unfold data_of; now rewrite HS).
        rewrite Hd, Bn in Hl. exact Hl.
      - unfold child_of. rewrite Bt. cbn [view_of]. set_solver. }
    split_and!.
    + rewrite Rcalls. unfold view_calls. now rewrite Bt.
    + now rewrite Rf, composed_w, Bn, Hnull.
    + now rewrite Rf, composed_h, Bn, Hnull, Bl.
Qed.

Lemma one_view (u : World) (rect : GRect) (e : ptr) (lab : bool)
    (evs : list Event) (o : Outcome ptr) :
  Built u rect e lab o →
  let seg := value o in
  let d := data_of (after o) seg in
  let u1 := lifetime seg evs (after o) in
  let o1 := segment_layer_update seg u1 in
  let o2 := segment_layer_destroy seg (after o1) in
  List.filter is_view_call (calls o ++ calls o1 ++ calls o2) =
    match view_of (type d) with
    | Some v =>
        [view_create_call v (child_rect rect lab) e (layer d);
         view_update_call v (layer d);
         view_destroy_call v (layer d)]
    | None => []
    end ∧
  calls o1 =
    match view_of (type d) with
    | Some v => [view_update_call v (layer d)]
    | None => []
    end ++ [layer_set_frame_call seg (frame_of (after o1) seg)].
Proof.
  intros [Be Bt Bl Bn Bs Bc Bf Bch Bnull Bll Bchildren Bdom Bfresh Bold Bcalls].
  intros seg d u1 o1 o2. subst seg.
  pose proof (lifetime_alive (after o) (value o) evs Bs) as [As Ad].
  fold u1 in As, Ad. clearbody u1.
  destruct (segment_layer_update_relaid _ _ As) as [Rd _ Rs _ _ _ _ _ Rcalls].
  fold o1 in Rd, Rs, Rcalls.
  destruct (segment_layer_destroy_destroyed _ _ Rs) as [Dcalls _ _ _].
  fold o2 in Dcalls. clearbody o2 o1.
  cbv zeta in Bcalls, Dcalls. rewrite Rd, Ad in Dcalls. rewrite Ad in Rcalls.
  fold d in Bcalls, Rcalls, Dcalls.
  assert (Hc : List.filter is_view_call (classify_calls e (conversation u e)) = []).
  { rewrite classify_calls_filter.
    destruct (is_widget_entry _), (spec_table _ _); reflexivity. }
  split.
  - rewrite Bcalls, Rcalls, Dcalls, !List.filter_app, Hc. unfold view_calls.
    destruct lab, (view_of (type d)), (is_set (assistant_label_layer d)); reflexivity.
  - exact Rcalls.
Qed.

(** X4.  The three switch statements agree.  Over the life of a segment the
    only calls into a child view are the constructor, the update function
    and the destructor of one and the same view, the one that belongs to the
    segment's type, and they are made on the handle the constructor
    returned; a segment without a view makes none.  An update is that one
    call followed by setting the segment's frame, and from any world
    whatever it allocates nothing, releases nothing and writes no log
    line. *)
Theorem segment_layer_one_view (u : World) (rect : GRect) (e : ptr)
    (assistant_label : bool) (evs : list Event) (u' : World) (seg' : ptr) :
  let o := segment_layer_create rect e assistant_label u in
  let seg := value o in
  let d := data_of (after o) seg in
  let u1 := lifetime seg evs (after o) in
  let o1 := segment_layer_update seg u1 in
  let o2 := segment_layer_destroy seg (after o1) in
  (List.filter is_view_call (calls o ++ calls o1 ++ calls o2) =
     match view_of (type d) with
     | Some v =>
         [view_create_call v (child_rect rect assistant_label) e (layer d);
          view_update_call v (layer d);
          view_destroy_call v (layer d)]
     | None => []
     end ∧
   calls o1 =
     match view_of (type d) with
     | Some v => [view_update_call v (layer d)]
     | None => []
     end ++ [layer_set_frame_call seg (frame_of (after o1) seg)]) ∧
  concat (map allocated (calls (segment_layer_update seg' u'))) = [] ∧
  concat (map released (calls (segment_layer_update seg' u'))) = [] ∧
  List.filter is_log (calls (segment_layer_update seg' u')) = [].
Proof.
  split; [| split_and!].
  - exact (one_view u rect e assistant_label evs _
             (segment_layer_create_built u rect e assistant_label)).
  - apply (calls_quiet update_call); [| apply segment_layer_update_calls].
    intros c. now destruct c.
  - apply (calls_quiet update_call); [| apply segment_layer_update_calls].
    intros c. now destruct c.
  - apply (filter_none _ update_call); [| apply segment_layer_update_calls].
    intros c. now destruct c.
Qed.

Lemma label_untouched (u : World) (rect : GRect) (e : ptr) (evs : list Event)
    (o : Outcome ptr) :
  Built u rect e true o →
  let d := data_of (after o) (value o) in
  let lbl := assistant_label_layer d in
  let u1 := lifetime (value o) evs (after o) in
  let o2 := segment_layer_update (value o) u1 in
  let label := with_text "Bobby" (new_layer (label_rect rect) NULL) in
  heap u1 !! lbl = Some label ∧
  heap (after o2) !! lbl = Some label ∧
  ∃ S, heap (after o2) !! value o = Some S ∧ children S = [lbl; layer d] ∧ data S = d.
Proof.
  intros [Be Bt Bl Bn Bs Bc Bf Bch Bnull Bll Bchildren Bdom Bfresh Bold Bcalls].
  intros d lbl u1 o2 label. subst lbl label.
  pose proof (lifetime_alive (after o) (value o) evs Bs) as [As Ad].
  pose proof (lifetime_keeps (after o) (value o) evs) as Hkeep.
  pose proof (lifetime_self (after o) (value o) evs) as Hself.
  fold u1 in As, Ad, Hkeep, Hself. clearbody u1.
  specialize (Bll eq_refl). fold d in Ad, Bl, Bll, Hkeep.
  pose proof Bs as Bs'. apply is_segment_spec in Bs' as (S & HS & Hnd & _ & _ & _).
  assert (Hd : data S = d) by (subst d; unfold data_of; now rewrite HS).
  rewrite Hd in Hnd. unfold owned, label_of in Hnd. rewrite Bl in Hnd.
  assert (Hls : assistant_label_layer d ≠ value o).
  { apply NoDup_app in Hnd as (_ & _ & Hnd). apply NoDup_cons_1_1 in Hnd. set_solver. }
  assert (Hlc : assistant_label_layer d ∉ child_of d).
  { apply NoDup_app in Hnd as (_ & Hnd & _). set_solver. }
  assert (Hl1 : heap u1 !! assistant_label_layer d = heap (after o) !! assistant_label_layer d).
  { apply Hkeep; [exact Bs | | done | done]. unfold owned_by, owned, label_of. fold d.
    rewrite Bl. set_solver. }
  destruct (Hself S Bs HS) as [fr Hfr].
  destruct (segment_layer_update_relaid _ _ As) as [_ _ _ _ _ Ro Rself _ _].
  fold o2 in Ro, Rself. clearbody o2.
  rewrite Ad in Ro.
  split_and!.
  - now rewrite Hl1, Bll.
  - now rewrite Ro, Hl1, Bll.
  - eexists. split; [apply (Rself _ Hfr) |].
    cbn [with_frame children data]. rewrite (Bchildren S HS), Hd.
    unfold label_of. now rewrite Bl.
Qed.

(** X5.  The label is laid out once.  Whatever happens to a labelled segment
    during its life, and after any update, its label is as construction left
    it (the frame (5, 0, w, NAME_HEIGHT) for the width [w] of the input rect,
    the text "Bobby"), and the children of the segment's layer are still the
    label and then the child: an update re-attaches nothing and does not
    resize the label. *)
Theorem segment_layer_label_untouched (u : World) (rect : GRect) (e : ptr)
    (evs : list Event) :
  let o := segment_layer_create rect e true u in
  let seg := value o in
  let d := data_of (after o) seg in
  let lbl := assistant_label_layer d in
  let u1 := lifetime seg evs (after o) in
  let u2 := after (segment_layer_update seg u1) in
  let label :=
    {| frame := GRectOf 5 0 (w (size rect)) NAME_HEIGHT; children := [];
       text := "Bobby"; subject := NULL; data := zero_data |} in
  heap u1 !! lbl = Some label ∧
  heap u2 !! lbl = Some label ∧
  ∃ S, heap u2 !! seg = Some S ∧ children S = [lbl; layer d] ∧ data S = d.
Proof.
  exact (label_untouched u rect e evs _ (segment_layer_create_built u rect e true)).
Qed.

(** X6.  Construction and update compute the frame alike: an update right
    after the construction that leaves the child's frame as the constructor
    left it gives the segment the frame it already has. *)
Theorem segment_layer_update_after_create (u : World) (rect : GRect) (e : ptr)
    (assistant_label : bool) :
  let o := segment_layer_create rect e assistant_label u in
  let seg := value o in
  let d := data_of (after o) seg in
  let o1 := segment_layer_update seg (after o) in
  frame_of (after o1) (layer d) = frame_of (after o) (layer d) →
  frame_of (after o1) seg = frame_of (after o) seg.
Proof.
  intros o seg d o1. subst seg d. built o.
  pose proof (relaid_frame _ _ _ (segment_layer_update_relaid _ _ Bs)) as Rf.
  fold o1 in Rf. clearbody o1. intros Hchild.
  now rewrite Rf, Hchild, Bl, Bf, composed_origin.
Qed.

(** X7.  In a build without the map feature no operation ever calls into
    the map widget, from any world; no segment has the map type; and an
    entry that carries a map widget is classified as [SegmentTypeNone], with
    the warning. *)
Theorem map_feature_disabled (u : World) (rect : GRect) (e : ptr)
    (assistant_label : bool) (seg : ptr) :
  ENABLE_FEATURE_MAPS = false →
  let o := segment_layer_create rect e assistant_label u in
  value (prv_get_segment_type e u) ≠ SegmentTypeMapWidget ∧
  type (data_of (after o) (value o)) ≠ SegmentTypeMapWidget ∧
  List.filter is_map_call (calls o) = [] ∧
  List.filter is_map_call (calls (segment_layer_update seg u)) = [] ∧
  List.filter is_map_call (calls (segment_layer_destroy seg u)) = [] ∧
  (is_map_entry (conversation u e) = true →
   value (prv_get_segment_type e u) = SegmentTypeNone ∧
   List.filter is_log (calls (prv_get_segment_type e u)) =
     [BOBBY_LOG_call APP_LOG_LEVEL_WARNING "Unknown entry type %d."
        (LogEntryType EntryTypeWidget)]).
Proof.
  intros Hoff o.
  assert (Hv : variant (conversation u e) ≠ SegmentTypeMapWidget).
  { intros Hv. apply variant_map in Hv. congruence. }
  rewrite prv_get_segment_type_value, prv_get_segment_type_calls.
  split_and!.
  - exact Hv.
  - built o. now rewrite Bt.
  - built o. cbv zeta in Bcalls.
    rewrite Bcalls, !List.filter_app. unfold view_calls. rewrite Bt.
    assert (Hc : List.filter is_map_call (classify_calls e (conversation u e)) = []).
    { rewrite classify_calls_filter.
      destruct (is_widget_entry _), (spec_table _ _); reflexivity. }
    rewrite Hc.
    destruct assistant_label, (variant (conversation u e)); try done.
  - pattern (segment_layer_update seg u). apply wp_post.
    unfold segment_layer_update. rewrite Hoff. repeat blind_step; reflexivity.
  - pattern (segment_layer_destroy seg u). apply wp_post.
    unfold segment_layer_destroy. rewrite Hoff. repeat blind_step; reflexivity.
  - unfold is_map_entry, variant, spec_table. rewrite classify_calls_filter.
    unfold is_widget_entry, spec_table.
    destruct (entry_type (conversation u e)); try discriminate.
    destruct (widget_type (entry_widget (conversation u e))); try discriminate.
    rewrite Hoff. now intros _.
Qed.

(** X8.  Classification only reads.  It leaves the world as it is for every
    entry, and its calls are reads of the data model and at most one log
    line: the entry's type is read once when the entry is recognised and a
    second time, for the log line, when it is not; an entry that is
    recognised is classified without any log line. *)
Theorem prv_get_segment_type_reads (u : World) (e : ptr) :
  let o := prv_get_segment_type e u in
  after o = u ∧
  Forall (λ c, is_get_type c || is_get_widget c || is_log c = true) (calls o) ∧
  match spec_table ENABLE_FEATURE_MAPS (conversation u e) with
  | Some _ =>
      List.filter is_get_type (calls o) = [conversation_entry_get_type_call e] ∧
      List.filter is_log (calls o) = []
  | None =>
      List.filter is_get_type (calls o) =
        [conversation_entry_get_type_call e; conversation_entry_get_type_call e] ∧
      List.filter is_log (calls o) =
        [BOBBY_LOG_call APP_LOG_LEVEL_WARNING "Unknown entry type %d."
           (LogEntryType (entry_type (conversation u e)))]
  end.
Proof.
  intros o. subst o. rewrite prv_get_segment_type_calls.
  split_and!; [now rewrite prv_get_segment_type_run | |].
  - unfold classify_calls.
    destruct (entry_type (conversation u e)), (spec_table _ _); repeat constructor.
  - rewrite !classify_calls_filter.
    destruct (is_widget_entry _), (spec_table _ _); split; reflexivity.
Qed.

(** X9.  Classification read backwards: a message segment always has a
    prompt or a response behind it, an info segment a thought, an error or
    an action, a widget segment a widget entry of the matching sub-type (the
    map segment only in a build with the map feature), and a segment of type
    [SegmentTypeNone] a deleted entry or an entry that was logged as
    unknown. *)
Theorem prv_get_segment_type_exact (u : World) (e : ptr) :
  let t := value (prv_get_segment_type e u) in
  let en := conversation u e in
  let widget (wt : ConversationWidgetType) :=
    entry_type en = EntryTypeWidget ∧ widget_type (entry_widget en) = wt in
  (t = SegmentTypeMessage ↔
     entry_type en = EntryTypePrompt ∨ entry_type en = EntryTypeResponse) ∧
  (t = SegmentTypeInfo ↔
     entry_type en = EntryTypeThought ∨ entry_type en = EntryTypeError ∨
     entry_type en = EntryTypeAction) ∧
  (t = SegmentTypeWeatherSingleDayWidget ↔
     widget ConversationWidgetTypeWeatherSingleDay) ∧
  (t = SegmentTypeWeatherCurrentWidget ↔ widget ConversationWidgetTypeWeatherCurrent) ∧
  (t = SegmentTypeWeatherMultiDayWidget ↔
     widget ConversationWidgetTypeWeatherMultiDay) ∧
  (t = SegmentTypeTimerWidget ↔ widget ConversationWidgetTypeTimer) ∧
  (t = SegmentTypeNumberWidget ↔ widget ConversationWidgetTypeNumber) ∧
  (t = SegmentTypeMapWidget ↔
     widget ConversationWidgetTypeMap ∧ ENABLE_FEATURE_MAPS = true) ∧
  (t = SegmentTypeNone ↔
     entry_type en = EntryTypeDeleted ∨
     List.filter is_alarm (calls (prv_get_segment_type e u)) ≠ []).
Proof.
  intros t en widget. subst t en widget. cbv beta.
  rewrite prv_get_segment_type_value, prv_get_segment_type_calls.
  unfold variant, classify_calls, spec_table.
  destruct (entry_type (conversation u e));
    [| | | | | | destruct (widget_type (entry_widget (conversation u e)));
               [| | | | | destruct ENABLE_FEATURE_MAPS |] |];
    cbn; split_and!; split; intros; destruct_and?; destruct_or?;
    first [congruence | repeat split; congruence | left; congruence
           | right; congruence | right; left; congruence | right; right; congruence].
Qed.

(** ** Several segments *)

Lemma segments_spec (u : World) (segs : list ptr) :
  segments u segs = true ↔
  (∀ s, s ∈ segs → is_segment u s = true) ∧ NoDup (owned_all u segs).
Proof.
  unfold segments. rewrite andb_true_iff, bool_decide_eq_true, forallb_forall.
  setoid_rewrite list_elem_of_In. done.
Qed.

Lemma elem_of_owned_all (u : World) (segs : list ptr) (p : ptr) :
  p ∈ owned_all u segs ↔ ∃ s, s ∈ segs ∧ p ∈ owned_by u s.
Proof.
  unfold owned_all. induction segs as [|a segs IH]; cbn [map concat].
  - set_solver.
  - rewrite elem_of_app, IH. set_solver.
Qed.

Lemma owned_all_app (u : World) (l1 l2 : list ptr) :
  owned_all u (l1 ++ l2) = owned_all u l1 ++ owned_all u l2.
Proof. unfold owned_all. now rewrite map_app, concat_app. Qed.

Lemma owned_all_ext (u u' : World) (segs : list ptr) :
  (∀ s, s ∈ segs → data_of u' s = data_of u s) →
  owned_all u' segs = owned_all u segs.
Proof.
  intros Hd. unfold owned_all. f_equal. apply map_ext_in. intros s Hs.
  unfold owned_by. rewrite Hd; [done | now apply list_elem_of_In].
Qed.

Lemma owned_all_delete (u : World) (segs : list ptr) (i : nat) (s : ptr) :
  segs !! i = Some s →
  owned_all u segs ≡ₚ owned_by u s ++ owned_all u (delete i segs).
Proof.
  revert i. induction segs as [|a segs IH]; intros [|i] Hi; try done.
  - injection Hi as ->. done.
  - cbn in Hi. unfold owned_all in *. cbn [delete list_delete map concat].
    rewrite (IH i Hi). apply Permutation_app_swap_app.
Qed.

Lemma elem_of_delete_other (segs : list ptr) (i : nat) (s s' : ptr) :
  segs !! i = Some s → s' ∈ segs → s' ≠ s → s' ∈ delete i segs.
Proof.
  intros Hi Hs' Hne. rewrite <- (take_drop_middle _ _ _ Hi) in Hs'.
  rewrite delete_take_drop. set_solver.
Qed.

Lemma elem_of_delete_lookup (segs : list ptr) (i j : nat) (s' : ptr) :
  segs !! j = Some s' → i ≠ j → s' ∈ delete i segs.
Proof.
  intros Hj Hij. destruct (decide (j < i)) as [Hlt | Hge].
  - apply (list_elem_of_lookup_2 _ j). now rewrite list_lookup_delete_lt.
  - destruct j as [|j]; [lia |]. apply (list_elem_of_lookup_2 _ j).
    rewrite list_lookup_delete. rewrite decide_False by lia. exact Hj.
Qed.

Lemma is_segment_owned (u : World) (seg : ptr) :
  is_segment u seg = true →
  NoDup (owned_by u seg) ∧
  (∀ p, p ∈ owned_by u seg → is_Some (heap u !! p)) ∧
  seg ∈ owned_by u seg ∧
  (∀ p, p ∈ child_of (data_of u seg) → p ∈ owned_by u seg).
Proof.
  unfold is_segment, owned_by.
  rewrite !andb_true_iff, !bool_decide_eq_true, Forall_forall.
  intros [[[Hnd Hlive] _] _]. split_and!; [done | done | |]; unfold owned; set_solver.
Qed.

Lemma owned_NoDup (u : World) (seg : ptr) :
  is_segment u seg = true → NoDup (owned_by u seg).
Proof. intros Hs. now destruct (is_segment_owned u seg Hs) as (? & ? & ? & ?). Qed.

Lemma owned_live (u : World) (seg p : ptr) :
  is_segment u seg = true → p ∈ owned_by u seg → is_Some (heap u !! p).
Proof. intros Hs. destruct (is_segment_owned u seg Hs) as (? & ? & ? & ?). auto. Qed.

Lemma owned_self (u : World) (seg : ptr) :
  is_segment u seg = true → seg ∈ owned_by u seg.
Proof. intros Hs. destruct (is_segment_owned u seg Hs) as (? & ? & ? & ?). auto. Qed.

Lemma owned_child (u : World) (seg p : ptr) :
  is_segment u seg = true → p ∈ child_of (data_of u seg) → p ∈ owned_by u seg.
Proof. intros Hs. destruct (is_segment_owned u seg Hs) as (? & ? & ? & ?). auto. Qed.

Lemma is_segment_keep (u u' : World) (seg : ptr) :
  is_segment u seg = true →
  data_of u' seg = data_of u seg →
  (∀ p, p ∈ owned_by u seg → is_Some (heap u' !! p)) →
  is_segment u' seg = true.
Proof.
  unfold is_segment, owned_by. intros Hs Hd Hlive. rewrite Hd.
  rewrite !andb_true_iff, !bool_decide_eq_true, Forall_forall in Hs.
  rewrite !andb_true_iff, !bool_decide_eq_true, Forall_forall.
  destruct Hs as [[[Hnd _] Hl] Hm]. split_and!; done.
Qed.

Lemma segments_apart (u : World) (rows : list ptr) (i : nat) (s s' : ptr) (p : ptr) :
  segments u rows = true → rows !! i = Some s → s' ∈ delete i rows →
  p ∈ owned_by u s' → p ∉ owned_by u s.
Proof.
  intros Hsegs Hi Hs' Hp Hps. apply segments_spec in Hsegs as [_ Hnd].
  rewrite (owned_all_delete u rows i s Hi) in Hnd.
  apply NoDup_app in Hnd as (_ & Hdisj & _). apply (Hdisj p Hps).
  apply elem_of_owned_all. eauto.
Qed.

Lemma segments_delete (u u' : World) (rows : list ptr) (i : nat) (s : ptr) :
  segments u rows = true → rows !! i = Some s →
  (∀ s' p, s' ∈ delete i rows → p ∈ owned_by u s' → is_Some (heap u' !! p)) →
  (∀ s', s' ∈ delete i rows → data_of u' s' = data_of u s') →
  segments u' (delete i rows) = true.
Proof.
  intros Hsegs Hi Hlive Hdata. apply segments_spec in Hsegs as [Hall Hnd].
  apply segments_spec. split.
  - intros s' Hs'. apply (is_segment_keep u).
    + apply Hall. eapply list_elem_of_delete_inv, Hs'.
    + now apply Hdata.
    + intros p Hp. now apply (Hlive s' p).
  - rewrite (owned_all_ext u) by exact Hdata.
    rewrite (owned_all_delete u rows i s Hi) in Hnd.
    now apply NoDup_app in Hnd as (_ & _ & Hnd).
Qed.

(** Construction next to other segments. *)
Lemma segments_built (u : World) (rows : list ptr) (rect : GRect) (e : ptr)
    (lab : bool) (o : Outcome ptr) :
  Built u rect e lab o →
  segments u rows = true →
  segments (after o) (rows ++ [value o]) = true ∧
  (∀ s, s ∈ rows → data_of (after o) s = data_of u s) ∧
  (∀ s p, s ∈ rows → p ∈ owned_by u s → heap (after o) !! p = heap u !! p).
Proof.
  intros [Be Bt Bl Bn Bs Bc Bf Bch Bnull Bll Bchildren Bdom Bfresh Bold Bcalls] Hsegs.
  apply segments_spec in Hsegs as [Hall Hnd].
  assert (Hsame : ∀ s p, s ∈ rows → p ∈ owned_by u s →
                  heap (after o) !! p = heap u !! p).
  { intros s p Hs Hp. destruct (is_segment_owned u s (Hall s Hs)) as (_ & Hlive & _).
    destruct (Hlive p Hp) as [L HL]. rewrite HL. now apply Bold. }
  assert (Hdata : ∀ s, s ∈ rows → data_of (after o) s = data_of u s).
  { intros s Hs. unfold data_of. rewrite (Hsame s s Hs); [done |].
    now apply owned_self, Hall. }
  split_and!; [| done | done].
  apply segments_spec. split.
  - intros s Hs. apply elem_of_app in Hs as [Hs | Hs].
    + apply (is_segment_keep u); auto.
      intros p Hp. rewrite (Hsame s p Hs Hp).
      now apply (owned_live u s p (Hall s Hs)).
    + apply list_elem_of_singleton in Hs as ->. exact Bs.
  - rewrite owned_all_app, (owned_all_ext u) by exact Hdata.
    unfold owned_all at 2. cbn [map concat]. rewrite app_nil_r.
    apply NoDup_app. split_and!; [exact Hnd | | now apply owned_NoDup].
    intros p Hp Hp'. apply elem_of_owned_all in Hp as (s & Hs & Hp).
    destruct (is_segment_owned u s (Hall s Hs)) as (_ & Hlive & _).
    destruct (Hlive p Hp) as [L HL]. rewrite (Bfresh p Hp') in HL. done.
Qed.

(** An update next to other segments. *)
Lemma segments_relaid (u : World) (rows : list ptr) (i : nat) (s : ptr)
    (o : Outcome unit) :
  Relaid u s o →
  segments u rows = true → rows !! i = Some s →
  segments (after o) rows = true ∧
  (∀ s', s' ∈ rows → data_of (after o) s' = data_of u s') ∧
  (∀ s' p, s' ∈ delete i rows → p ∈ owned_by u s' →
           heap (after o) !! p = heap u !! p).
Proof.
  intros [Rd Rdom Rs Rc Rf Ro Rself Rch Rcalls] Hsegs Hi.
  pose proof Hsegs as Hsegs'. apply segments_spec in Hsegs' as [Hall Hnd].
  assert (Hs : s ∈ rows) by (eapply list_elem_of_lookup_2, Hi).
  destruct (is_segment_owned u s (Hall s Hs)) as (_ & _ & Hself & Hchild).
  assert (Hsame : ∀ s' p, s' ∈ delete i rows → p ∈ owned_by u s' →
                  heap (after o) !! p = heap u !! p).
  { intros s' p Hs' Hp.
    pose proof (segments_apart u rows i s s' p Hsegs Hi Hs' Hp) as Hps.
    apply Ro; [intros -> | intros Hc; apply Hchild in Hc]; done. }
  assert (Hdata : ∀ s', s' ∈ rows → data_of (after o) s' = data_of u s').
  { intros s' Hs'. destruct (decide (s' = s)) as [-> | Hne]; [exact Rd |].
    pose proof (elem_of_delete_other rows i s s' Hi Hs' Hne) as Hd.
    unfold data_of. rewrite (Hsame s' s' Hd); [done |].
    eapply owned_self, Hall, Hs'. }
  split_and!; [| done | done].
  apply segments_spec. split.
  - intros s' Hs'. apply (is_segment_keep u); auto.
    intros p Hp. apply elem_of_dom. rewrite Rdom. apply elem_of_dom.
    now apply (owned_live u s' p (Hall s' Hs')).
  - now rewrite (owned_all_ext u) by exact Hdata.
Qed.

(** A destruction next to other segments. *)
Lemma segments_destroyed (u : World) (rows : list ptr) (i : nat) (s : ptr)
    (o : Outcome unit) :
  Destroyed u s o →
  segments u rows = true → rows !! i = Some s →
  (∀ p L, heap u !! p = Some L → p ∉ owned_by u s →
          ∃ L', heap (after o) !! p = Some L' ∧
                data L' = data L ∧ frame L' = frame L ∧ text L' = text L) ∧
  segments (after o) (delete i rows) = true ∧
  (∀ s', s' ∈ delete i rows → data_of (after o) s' = data_of u s').
Proof.
  intros [Dcalls Ddom Dc Dsurv] Hsegs Hi.
  pose proof Hsegs as Hsegs'. apply segments_spec in Hsegs' as [Hall Hnd].
  assert (Hkeep : ∀ p L, heap u !! p = Some L → p ∉ owned_by u s →
            ∃ L', heap (after o) !! p = Some L' ∧
                  data L' = data L ∧ frame L' = frame L ∧ text L' = text L).
  { intros p L HL Hp.
    assert (Hin : p ∈ dom (heap (after o))).
    { rewrite Ddom. apply elem_of_difference. split; [now apply elem_of_dom |].
      now rewrite elem_of_list_to_set. }
    apply elem_of_dom in Hin as [L' HL'].
    destruct (Dsurv p L' HL') as (L0 & HL0 & Hd & Hf & Ht).
    rewrite HL in HL0. injection HL0 as <-. eauto. }
  assert (Hlive : ∀ s' p, s' ∈ delete i rows → p ∈ owned_by u s' →
            ∃ L L', heap u !! p = Some L ∧ heap (after o) !! p = Some L' ∧
                    data L' = data L).
  { intros s' p Hs' Hp.
    pose proof (segments_apart u rows i s s' p Hsegs Hi Hs' Hp) as Hps.
    assert (Hs'r : s' ∈ rows) by (eapply list_elem_of_delete_inv, Hs').
    destruct (is_segment_owned u s' (Hall s' Hs'r)) as (_ & Hl & _).
    destruct (Hl p Hp) as [L HL].
    destruct (Hkeep p L HL Hps) as (L' & HL' & Hd & _). eauto. }
  assert (Hdata : ∀ s', s' ∈ delete i rows → data_of (after o) s' = data_of u s').
  { intros s' Hs'.
    assert (Hs'r : s' ∈ rows) by (eapply list_elem_of_delete_inv, Hs').
    destruct (Hlive s' s' Hs') as (L & L' & HL & HL' & Hd).
    { now apply owned_self, Hall. }
    unfold data_of. now rewrite HL, HL'. }
  split_and!; [done | | done].
  apply (segments_delete u _ rows i s); try done.
  intros s' p Hs' Hp. destruct (Hlive s' p Hs' Hp) as (L & L' & _ & HL' & _). eauto.
Qed.

(** The container moves a row, or the conversation changes. *)
Lemma segments_same_data (u u' : World) (rows : list ptr) :
  segments u rows = true →
  (∀ p, data_of u' p = data_of u p) →
  dom (heap u') = dom (heap u) →
  segments u' rows = true ∧ owned_all u' rows = owned_all u rows.
Proof.
  intros Hsegs Hdata Hdom. apply segments_spec in Hsegs as [Hall Hnd].
  assert (Hown : owned_all u' rows = owned_all u rows).
  { apply owned_all_ext. auto. }
  split; [| done]. apply segments_spec. split; [| now rewrite Hown].
  intros s Hs. rewrite (is_segment_ext u); auto.
Qed.

Lemma layer_set_frame_data (u : World) (s : ptr) (r : GRect) :
  let o := layer_set_frame s r u in
  (∀ p, data_of (after o) p = data_of u p) ∧
  dom (heap (after o)) = dom (heap u) ∧
  (∀ p L, heap u !! p = Some L →
          ∃ L', heap (after o) !! p = Some L' ∧
                data L' = data L ∧ text L' = text L ∧ (p ≠ s → frame L' = frame L)) ∧
  calls o = [layer_set_frame_call s r].
Proof.
  unfold layer_set_frame, act, with_heap. cbn [after calls heap]. split_and!.
  - intros p. unfold data_of. cbn [heap].
    destruct (decide (p = s)) as [-> | Hne].
    + rewrite lookup_alter_eq. now destruct (heap u !! s).
    + now rewrite lookup_alter_ne.
  - now rewrite dom_alter_L.
  - intros p L HL. destruct (decide (p = s)) as [-> | Hne].
    + rewrite lookup_alter_eq, HL. eexists. split; [done |]. split_and!; done.
    + rewrite lookup_alter_ne, HL by done. eauto.
  - done.
Qed.

(** The allocations and releases of the operations. *)
Lemma built_accounts (u : World) (rect : GRect) (e : ptr) (lab : bool)
    (o : Outcome ptr) :
  Built u rect e lab o →
  concat (map allocated (calls o)) ≡ₚ owned_by (after o) (value o) ∧
  concat (map released (calls o)) = [].
Proof.
  intros [Be Bt Bl Bn Bs Bc Bf Bch Bnull Bll Bchildren Bdom Bfresh Bold Bcalls].
  cbv zeta in Bcalls. rewrite Bcalls. rewrite !map_app, !concat_app.
  rewrite classify_calls_allocated.
  assert (Hr : concat (map released (classify_calls e (conversation u e))) = []).
  { unfold classify_calls.
    destruct (entry_type (conversation u e)), (spec_table _ _); reflexivity. }
  rewrite Hr. unfold owned_by, view_calls, owned, child_of, label_of. rewrite Bl.
  destruct lab, (view_of (type _)); cbn; split; try done; solve_Permutation.
Qed.

Lemma relaid_accounts (u : World) (s : ptr) :
  concat (map allocated (calls (segment_layer_update s u))) = [] ∧
  concat (map released (calls (segment_layer_update s u))) = [].
Proof.
  apply (calls_quiet update_call); [| apply segment_layer_update_calls].
  intros c. now destruct c.
Qed.

Lemma destroyed_accounts (u : World) (s : ptr) (o : Outcome unit) :
  Destroyed u s o →
  concat (map allocated (calls o)) = [] ∧
  concat (map released (calls o)) = owned_by u s.
Proof.
  intros [Dcalls Ddom Dc Dsurv]. cbv zeta in Dcalls. rewrite Dcalls.
  unfold owned_by, view_calls, owned, child_of, label_of.
  destruct (view_of (type _)), (is_set _); split; reflexivity.
Qed.

Lemma then_ret {A B} (m : M A) (b : B) (u : World) :
  (m;; mret b) u = mkOutcome b (after (m u)) (calls (m u) ++ []).
Proof. reflexivity. Qed.

Lemma bind_ret {A B} (m : M A) (f : A → B) (u : World) :
  (a ← m; mret (f a)) u = mkOutcome (f (value (m u))) (after (m u)) (calls (m u) ++ []).
Proof. reflexivity. Qed.

Lemma kept_nothing (u0 u : World) (rows : list ptr) (cs : list Call) :
  Housekept u0 u rows cs → Housekept u0 u rows (cs ++ []).
Proof. now rewrite app_nil_r. Qed.

Lemma kept_built (u0 u : World) (rows : list ptr) (cs : list Call)
    (rect : GRect) (e : ptr) (lab : bool) (o : Outcome ptr) :
  Built u rect e lab o →
  Housekept u0 u rows cs →
  Housekept u0 (after o) (rows ++ [value o]) (cs ++ calls o).
Proof.
  intros B [Ksegs Kdom Kapart Kacc Kothers].
  destruct (segments_built u rows rect e lab _ B Ksegs) as (Hsegs & Hdata & Hsame).
  destruct (built_accounts u rect e lab _ B) as [Hal Hrel].
  destruct B as [Be Bt Bl Bn Bs Bc Bf Bch Bnull Bll Bchildren Bdom Bfresh Bold Bcalls].
  assert (Hown : owned_all (after o) (rows ++ [value o]) =
                 owned_all u rows ++ owned_by (after o) (value o)).
  { rewrite owned_all_app, (owned_all_ext u) by exact Hdata.
    unfold owned_all at 2. cbn [map concat]. now rewrite app_nil_r. }
  split.
  - exact Hsegs.
  - rewrite Hown, Bdom, Kdom, list_to_set_app_L. unfold owned_by. set_solver.
  - intros p. rewrite Hown, elem_of_app. intros [Hp | Hp]; [now apply Kapart |].
    apply not_elem_of_dom. intros Hin.
    assert (Hin' : p ∈ dom (heap u)) by (rewrite Kdom; set_solver).
    apply elem_of_dom in Hin' as [L HL]. rewrite (Bfresh p Hp) in HL. done.
  - rewrite !map_app, !concat_app, Hrel, app_nil_r, Hown, Hal, Kacc.
    now rewrite (assoc app).
  - intros p L HL. destruct (Kothers p L HL) as (L' & HL' & Hd).
    exists L'. split; [now apply Bold | done].
Qed.

Lemma kept_relaid (u0 u : World) (rows : list ptr) (cs : list Call)
    (i : nat) (s : ptr) (o : Outcome unit) :
  Relaid u s o →
  concat (map allocated (calls o)) = [] ∧ concat (map released (calls o)) = [] →
  rows !! i = Some s →
  Housekept u0 u rows cs →
  Housekept u0 (after o) rows (cs ++ calls o).
Proof.
  intros R [Hal Hrel] Hi [Ksegs Kdom Kapart Kacc Kothers].
  pose proof Ksegs as Ksegs'. apply segments_spec in Ksegs' as [Kall Knd].
  assert (Hs : s ∈ rows) by (eapply list_elem_of_lookup_2, Hi).
  destruct (segments_relaid u rows i s _ R Ksegs Hi) as (Hsegs & Hdata & Hsame).
  destruct R as [Rd Rdom Rs Rc Rf Ro Rself Rch Rcalls].
  assert (Hown : owned_all (after o) rows = owned_all u rows).
  { now apply owned_all_ext. }
  split.
  - exact Hsegs.
  - now rewrite Hown, Rdom.
  - intros p. rewrite Hown. apply Kapart.
  - rewrite !map_app, !concat_app, Hal, Hrel, !app_nil_r, Hown. exact Kacc.
  - intros p L HL. destruct (Kothers p L HL) as (L' & HL' & Hd).
    exists L'. split; [| done]. rewrite <- HL'. apply Ro.
    + intros ->. rewrite Kapart in HL; [done |].
      apply elem_of_owned_all. exists s. split; [done |].
      now apply owned_self, Kall.
    + intros Hc. rewrite Kapart in HL; [done |].
      apply elem_of_owned_all. exists s. split; [done |].
      now apply (owned_child u s p (Kall s Hs)).
Qed.

Lemma kept_destroyed (u0 u : World) (rows : list ptr) (cs : list Call)
    (i : nat) (s : ptr) (o : Outcome unit) :
  Destroyed u s o →
  rows !! i = Some s →
  Housekept u0 u rows cs →
  Housekept u0 (after o) (delete i rows) (cs ++ calls o).
Proof.
  intros D Hi [Ksegs Kdom Kapart Kacc Kothers].
  pose proof Ksegs as Ksegs'. apply segments_spec in Ksegs' as [Kall Knd].
  assert (Hs : s ∈ rows) by (eapply list_elem_of_lookup_2, Hi).
  destruct (segments_destroyed u rows i s _ D Ksegs Hi) as (Hkeep & Hsegs & Hdata).
  destruct (destroyed_accounts u s _ D) as [Hal Hrel].
  destruct D as [Dcalls Ddom Dc Dsurv].
  assert (Hown : owned_all (after o) (delete i rows) = owned_all u (delete i rows)).
  { now apply owned_all_ext. }
  pose proof (owned_all_delete u rows i s Hi) as Hperm.
  pose proof Knd as Knd'. rewrite Hperm in Knd'.
  apply NoDup_app in Knd' as (_ & Hdisj & _).
  assert (Hsub : ∀ p, p ∈ owned_all u rows ↔
                      p ∈ owned_by u s ∨ p ∈ owned_all u (delete i rows)).
  { intros p. now rewrite Hperm, elem_of_app. }
  split.
  - exact Hsegs.
  - rewrite Hown, Ddom, Kdom. apply set_eq. intros p.
    rewrite elem_of_difference, !elem_of_union, !elem_of_list_to_set, Hsub.
    split.
    + intros [[Hp | [Hp | Hp]] Hn]; auto. done.
    + intros [Hp | Hp].
      * split; [auto |]. intros Hps.
        apply elem_of_dom in Hp as [L HL].
        rewrite Kapart in HL; [done |]. apply Hsub. auto.
      * split; [auto |]. intros Hps. now apply (Hdisj p Hps).
  - intros p. rewrite Hown. intros Hp. apply Kapart, Hsub. auto.
  - rewrite !map_app, !concat_app, Hal, Hrel, app_nil_r, Hown, Kacc, Hperm.
    now rewrite (assoc app).
  - intros p L HL. destruct (Kothers p L HL) as (L' & HL' & Hd & Hf & Ht).
    destruct (Hkeep p L' HL') as (L'' & HL'' & Hd' & Hf' & Ht').
    + intros Hp. rewrite Kapart in HL; [done |]. apply Hsub. auto.
    + exists L''. split; [done |]. split_and!; congruence.
Qed.

Lemma kept_moved (u0 u : World) (rows : list ptr) (cs : list Call)
    (i : nat) (s : ptr) (r : GRect) :
  rows !! i = Some s →
  Housekept u0 u rows cs →
  Housekept u0 (after (layer_set_frame s r u)) rows (cs ++ calls (layer_set_frame s r u)).
Proof.
  intros Hi [Ksegs Kdom Kapart Kacc Kothers].
  pose proof Ksegs as Ksegs'. apply segments_spec in Ksegs' as [Kall Knd].
  assert (Hs : s ∈ rows) by (eapply list_elem_of_lookup_2, Hi).
  destruct (layer_set_frame_data u s r) as (Hdata & Hdom & Hobj & Hcalls).
  generalize dependent (layer_set_frame s r u). intros o Hdata Hdom Hobj Hcalls.
  destruct (segments_same_data u (after o) rows Ksegs Hdata Hdom) as [Hsegs Hown].
  split.
  - exact Hsegs.
  - now rewrite Hown, Hdom.
  - intros p. rewrite Hown. apply Kapart.
  - rewrite Hcalls, !map_app, !concat_app. cbn [map concat allocated released app].
    rewrite !app_nil_r, Hown. exact Kacc.
  - intros p L HL. destruct (Kothers p L HL) as (L' & HL' & Hd & Hf & Ht).
    destruct (Hobj p L' HL') as (L'' & HL'' & Hd' & Ht' & Hf').
    exists L''. split; [done |]. split_and!; try congruence.
    rewrite Hf'; [done |]. intros ->. rewrite Kapart in HL; [done |].
    apply elem_of_owned_all. exists s. split; [done |].
    now apply owned_self, Kall.
Qed.

Lemma kept_changed (u0 u : World) (rows : list ptr) (cs : list Call)
    (c : ptr → ConversationEntry) :
  Housekept u0 u rows cs → Housekept u0 (with_conversation u c) rows (cs ++ []).
Proof.
  intros [Ksegs Kdom Kapart Kacc Kothers]. rewrite app_nil_r.
  destruct (segments_same_data u (with_conversation u c) rows Ksegs) as [Hsegs Hown];
    [done | done |].
  split; cbn [with_conversation heap]; rewrite ?Hown; done.
Qed.

Lemma container_step_kept (u0 u : World) (rows : list ptr) (cs : list Call)
    (s : ContainerStep) :
  Housekept u0 u rows cs →
  Housekept u0 (after (container_step rows s u)) (value (container_step rows s u))
            (cs ++ calls (container_step rows s u)).
Proof.
  intros K. destruct s as [rect e lab | i | i | i r | c]; cbn [container_step].
  - rewrite bind_ret. cbn [value after calls]. rewrite app_nil_r.
    apply (kept_built u0 u rows cs rect e lab); [apply segment_layer_create_built | done].
  - destruct (rows !! i) as [s|] eqn:Hi; [| now apply kept_nothing].
    rewrite then_ret. cbn [value after calls]. rewrite app_nil_r.
    apply (kept_relaid u0 u rows cs i s); try done; [| apply relaid_accounts].
    apply segment_layer_update_relaid.
    apply kept_segments, segments_spec in K as [Kall _].
    eapply Kall, list_elem_of_lookup_2, Hi.
  - destruct (rows !! i) as [s|] eqn:Hi; [| now apply kept_nothing].
    rewrite then_ret. cbn [value after calls]. rewrite app_nil_r.
    apply (kept_destroyed u0 u rows cs i s); try done.
    apply segment_layer_destroy_destroyed.
    apply kept_segments, segments_spec in K as [Kall _].
    eapply Kall, list_elem_of_lookup_2, Hi.
  - destruct (rows !! i) as [s|] eqn:Hi; [| now apply kept_nothing].
    rewrite then_ret. cbn [value after calls]. rewrite app_nil_r.
    now apply (kept_moved u0 u rows cs i s r).
  - cbn [value after calls]. now apply kept_changed.
Qed.

Lemma container_kept (u0 : World) (steps : list ContainerStep) :
  ∀ (u : World) (rows : list ptr) (cs : list Call),
    Housekept u0 u rows cs →
    Housekept u0 (after (container steps rows u)) (value (container steps rows u))
              (cs ++ calls (container steps rows u)).
Proof.
  induction steps as [|s steps IH]; intros u rows cs K.
  - cbn [container]. now apply kept_nothing.
  - cbn [container]. unfold mbind, M_bind. cbn [value after calls].
    rewrite (assoc app). apply IH. now apply container_step_kept.
Qed.

Lemma kept_start (u : World) : Housekept u u [] [].
Proof.
  split; cbn; try done.
  - set_solver.
  - set_solver.
  - intros p L HL. eauto.
Qed.

Lemma apart (u : World) (rows : list ptr) (i j : nat) (s s' : ptr)
    (rect : GRect) (e : ptr) (lab : bool)
    (oc : Outcome ptr) (ou od : Outcome unit) :
  Built u rect e lab oc → Relaid u s ou → Destroyed u s od →
  segments u rows = true → rows !! i = Some s → rows !! j = Some s' → i ≠ j →
  (∀ p, p ∈ owned_by u s' → p ∉ owned_by u s) ∧
  (∀ p, p ∈ owned_by u s' →
     heap (after oc) !! p = heap u !! p ∧
     heap (after ou) !! p = heap u !! p ∧
     ∃ L L', heap u !! p = Some L ∧ heap (after od) !! p = Some L' ∧
             data L' = data L ∧ frame L' = frame L ∧ text L' = text L) ∧
  is_segment (after oc) s' = true ∧
  is_segment (after ou) s' = true ∧
  is_segment (after od) s' = true.
Proof.
  intros B R D Hsegs Hi Hj Hij.
  pose proof Hsegs as Hsegs'. apply segments_spec in Hsegs' as [Hall _].
  assert (Hs' : s' ∈ rows) by (eapply list_elem_of_lookup_2, Hj).
  assert (Hd' : s' ∈ delete i rows) by (eapply elem_of_delete_lookup; eauto).
  destruct (segments_built u rows rect e lab oc B Hsegs) as (Bsegs & _ & Bsame).
  destruct (segments_relaid u rows i s ou R Hsegs Hi) as (Rsegs & _ & Rsame).
  destruct (segments_destroyed u rows i s od D Hsegs Hi) as (Dkeep & Dsegs & _).
  apply segments_spec in Bsegs as [Ball _].
  apply segments_spec in Rsegs as [Rall _].
  apply segments_spec in Dsegs as [Dall _].
  assert (Hapart : ∀ p, p ∈ owned_by u s' → p ∉ owned_by u s).
  { intros p Hp. now apply (segments_apart u rows i s s' p). }
  split_and!.
  - exact Hapart.
  - intros p Hp. split_and!.
    + now apply (Bsame s').
    + now apply (Rsame s').
    + destruct (owned_live u s' p (Hall s' Hs') Hp) as [L HL].
      destruct (Dkeep p L HL (Hapart p Hp)) as (L' & HL' & Hfields).
      exists L, L'. split_and!; try done; apply Hfields.
  - apply Ball. set_solver.
  - now apply Rall.
  - now apply Dall.
Qed.

(** X10.  Segments do not share state.  Among segments that own distinct
    objects, no object of one is an object of another; constructing a new
    segment, or updating another segment, leaves every object of a segment
    exactly as it is; destroying another segment leaves them live, with
    their data, frame and text; and the segment is still a segment after
    each of these. *)
Theorem segments_do_not_interfere (u : World) (rows : list ptr) (i j : nat)
    (s s' : ptr) (rect : GRect) (e : ptr) (assistant_label : bool) :
  segments u rows = true → rows !! i = Some s → rows !! j = Some s' → i ≠ j →
  let created := after (segment_layer_create rect e assistant_label u) in
  let updated := after (segment_layer_update s u) in
  let destroyed := after (segment_layer_destroy s u) in
  (∀ p, p ∈ owned_by u s' → p ∉ owned_by u s) ∧
  (∀ p, p ∈ owned_by u s' →
     heap created !! p = heap u !! p ∧
     heap updated !! p = heap u !! p ∧
     ∃ L L', heap u !! p = Some L ∧ heap destroyed !! p = Some L' ∧
             data L' = data L ∧ frame L' = frame L ∧ text L' = text L) ∧
  is_segment created s' = true ∧
  is_segment updated s' = true ∧
  is_segment destroyed s' = true.
Proof.
  intros Hsegs Hi Hj Hij.
  assert (Hs : is_segment u s = true).
  { apply segments_spec in Hsegs as [Hall _].
    eapply Hall, list_elem_of_lookup_2, Hi. }
  exact (apart u rows i j s s' rect e assistant_label _ _ _
           (segment_layer_create_built u rect e assistant_label)
           (segment_layer_update_relaid u s Hs)
           (segment_layer_destroy_destroyed u s Hs)
           Hsegs Hi Hj Hij).
Qed.

Lemma container_from_start (u : World) (steps : list ContainerStep) :
  Housekept u (after (container steps [] u)) (value (container steps [] u))
            (calls (container steps [] u)).
Proof. exact (container_kept u steps u [] [] (kept_start u)). Qed.

Lemma housekept_facts (u0 u : World) (rows : list ptr) (cs : list Call) :
  Housekept u0 u rows cs →
  segments u rows = true ∧
  dom (heap u) = dom (heap u0) ∪ list_to_set (owned_all u rows) ∧
  (∀ p, p ∈ owned_all u rows → heap u0 !! p = None) ∧
  concat (map allocated cs) ≡ₚ concat (map released cs) ++ owned_all u rows ∧
  (∀ p L, heap u0 !! p = Some L →
     ∃ L', heap u !! p = Some L' ∧
           data L' = data L ∧ frame L' = frame L ∧ text L' = text L) ∧
  (rows = [] →
   dom (heap u) = dom (heap u0) ∧
   concat (map allocated cs) ≡ₚ concat (map released cs)).
Proof.
  intros [Ksegs Kdom Kapart Kacc Kothers]. split_and!; try done.
  intros ->. rewrite Kdom, Kacc. cbn. rewrite app_nil_r. split; [set_solver | done].
Qed.

(** X11.  No leak and no double release, for any number of segments.  A
    container that starts with no rows and constructs, updates, moves and
    destroys segments in any order keeps its rows segments that share no
    object; the live objects are those it started with and those its rows
    own; every allocation it made is matched by exactly one release or is
    still owned by a row; and the objects that were there at the start keep
    their data, frame and text.  Once every row is destroyed the live
    objects are those from the start. *)
Theorem container_keeps_house (u : World) (steps : list ContainerStep) :
  let o := container steps [] u in
  let rows := value o in
  segments (after o) rows = true ∧
  dom (heap (after o)) = dom (heap u) ∪ list_to_set (owned_all (after o) rows) ∧
  (∀ p, p ∈ owned_all (after o) rows → heap u !! p = None) ∧
  concat (map allocated (calls o)) ≡ₚ
    concat (map released (calls o)) ++ owned_all (after o) rows ∧
  (∀ p L, heap u !! p = Some L →
     ∃ L', heap (after o) !! p = Some L' ∧
           data L' = data L ∧ frame L' = frame L ∧ text L' = text L) ∧
  (rows = [] →
   dom (heap (after o)) = dom (heap u) ∧
   concat (map allocated (calls o)) ≡ₚ concat (map released (calls o))).
Proof.
  exact (housekept_facts _ _ _ _ (container_from_start u steps)).
Qed.

End SegmentLayerFacts.

(** ** Concrete runs *)

#[local] Existing Instance demo_toolkit.

(** The first scenario of the specification: a prompt, no label, in the
    rect {0, 0, 180, 200}. *)
Example prompt_scenario :
  let o := segment_layer_create (GRectOf 0 0 180 200) 7%N false demo_world in
  let d := data_of (after o) (value o) in
  type d = SegmentTypeMessage ∧
  assistant_label_layer d = NULL ∧
  frame_of (after o) (value o) = GRectOf 0 0 180 47 ∧
  calls o =
    [blayer_create_with_data_call (GRectOf 0 0 180 200) 1%N;
     conversation_entry_get_type_call 7%N;
     view_create_call MessageLayer (GRectOf 0 0 180 200) 7%N 2%N;
     layer_add_child_call 1%N 2%N;
     layer_set_frame_call 1%N (GRectOf 0 0 180 47)].
Proof. vm_compute. repeat split. Qed.

(** The second scenario: a timer widget under a label, then an update and
    the destruction. *)
Example timer_scenario :
  let o := segment_layer_create (GRectOf 7 9 144 168) 100%N true demo_world in
  let o1 := segment_layer_update (value o) (after o) in
  let o2 := segment_layer_destroy (value o) (after o1) in
  calls o =
    [blayer_create_with_data_call (GRectOf 7 9 144 168) 1%N;
     conversation_entry_get_type_call 100%N;
     conversation_entry_get_widget_call 100%N;
     btext_layer_create_call (GRectOf 5 0 144 20) 2%N;
     layer_add_child_call 1%N 2%N;
     text_layer_set_text_call 2%N "Bobby";
     view_create_call TimerWidget (GRectOf 0 20 144 148) 100%N 3%N;
     layer_add_child_call 1%N 3%N;
     layer_set_frame_call 1%N (GRectOf 7 9 144 67)] ∧
  calls o1 =
    [view_update_call TimerWidget 3%N;
     layer_set_frame_call 1%N (GRectOf 7 9 144 67)] ∧
  calls o2 =
    [BOBBY_LOG_call APP_LOG_LEVEL_INFO "destroying SegmentLayer %p." (LogPointer 1%N);
     view_destroy_call TimerWidget 3%N;
     text_layer_destroy_call 2%N;
     layer_destroy_call 1%N] ∧
  heap (after o2) = ∅.
Proof. vm_compute. repeat split. Qed.

(** The third scenario: an entry of a type this build does not know.  The
    null handle is what is attached as the child and measured. *)
Example unknown_scenario :
  let o := segment_layer_create (GRectOf 0 0 180 200) 101%N false demo_world in
  let d := data_of (after o) (value o) in
  type d = SegmentTypeNone ∧
  layer d = NULL ∧
  dom (heap (after o)) = {[1%N]} ∧
  frame_of (after o) (value o) = GRectOf 0 0 0 0 ∧
  calls o =
    [blayer_create_with_data_call (GRectOf 0 0 180 200) 1%N;
     conversation_entry_get_type_call 101%N;
     conversation_entry_get_type_call 101%N;
     BOBBY_LOG_call APP_LOG_LEVEL_WARNING "Unknown entry type %d."
       (LogEntryType (EntryTypeOther 42));
     layer_add_child_call 1%N NULL;
     layer_set_frame_call 1%N (GRectOf 0 0 0 0)].
Proof. vm_compute. repeat split. Qed.

(** Two segments whose lives overlap: both are constructed, then both are
    destroyed, first the older one; nothing is left. *)
Example two_segments_scenario :
  let a := segment_layer_create (GRectOf 0 0 144 168) 7%N false demo_world in
  let b := segment_layer_create (GRectOf 0 47 144 168) 100%N true (after a) in
  let a' := segment_layer_destroy (value a) (after b) in
  let b' := segment_layer_destroy (value b) (after a') in
  dom (heap (after b)) = {[1%N; 2%N; 3%N; 4%N; 5%N]} ∧
  concat (map released (calls a')) = [2%N; 1%N] ∧
  concat (map released (calls b')) = [5%N; 4%N; 3%N] ∧
  heap (after b') = ∅.
Proof. vm_compute. repeat split. Qed.

(** C1 on the timer entry. *)
Lemma prv_get_segment_type_table_witness :
  spec_table ENABLE_FEATURE_MAPS (conversation demo_world 100%N) =
    Some SegmentTypeTimerWidget ∧
  value (prv_get_segment_type 100%N demo_world) = SegmentTypeTimerWidget.
Proof.
  split; [reflexivity |].
  exact (proj1 (prv_get_segment_type_table demo_world 100%N
                  SegmentTypeTimerWidget eq_refl)).
Defined.

(** C2 on the entry of unknown type. *)
Lemma prv_get_segment_type_fail_soft_witness :
  spec_table ENABLE_FEATURE_MAPS (conversation demo_world 101%N) = None ∧
  value (prv_get_segment_type 101%N demo_world) = SegmentTypeNone ∧
  List.filter is_log (calls (prv_get_segment_type 101%N demo_world)) =
    [BOBBY_LOG_call APP_LOG_LEVEL_WARNING "Unknown entry type %d."
       (LogEntryType (EntryTypeOther 42))].
Proof.
  split; [reflexivity |].
  destruct (prv_get_segment_type_fail_soft demo_world 101%N eq_refl)
    as [(Hvalue & _ & Hlog & _) _].
  split; [exact Hvalue | exact Hlog].
Defined.


(** C6 on the timer segment, after the container moved it. *)
Lemma segment_layer_update_idempotent_witness :
  let o := segment_layer_create (GRectOf 0 0 144 168) 100%N true demo_world in
  let seg := value o in
  let u1 := lifetime seg [Moved (GRectOf 0 60 144 10)] (after o) in
  let o1 := segment_layer_update seg u1 in
  let o2 := segment_layer_update seg (after o1) in
  frame_of (after o2) (layer (data_of u1 seg)) =
    frame_of (after o1) (layer (data_of u1 seg)) ∧
  frame_of (after o2) seg = frame_of (after o1) seg.
Proof.
  cbv zeta. split; [vm_compute; reflexivity |].
  apply (segment_layer_update_idempotent demo_world (GRectOf 0 0 144 168)
           100%N true [Moved (GRectOf 0 60 144 10)]).
  vm_compute. reflexivity.
Defined.

(** A container run: two rows are built, the second is updated, the first
    is destroyed, a third is built and moved, and all rows are destroyed. *)
Example container_scenario :
  let o := container
             [CreateRow (GRectOf 0 0 144 168) 7%N false;
              CreateRow (GRectOf 0 47 144 168) 100%N true;
              UpdateRow 1; DestroyRow 0;
              CreateRow (GRectOf 0 0 144 168) 101%N true;
              MoveRow 1 (GRectOf 0 67 144 20);
              DestroyRow 0; DestroyRow 0] [] demo_world in
  value o = [] ∧
  heap (after o) = ∅ ∧
  concat (map allocated (calls o)) = [1; 2; 3; 4; 5; 6; 7]%N ∧
  concat (map released (calls o)) = [2; 1; 5; 4; 3; 7; 6]%N.
Proof. vm_compute. repeat split. Qed.

(** X3 on the entry of unknown type, under a label. *)
Lemma segment_layer_childless_witness :
  value (prv_get_segment_type 101%N demo_world) = SegmentTypeNone ∧
  let o := segment_layer_create (GRectOf 0 0 144 168) 101%N true demo_world in
  layer (data_of (after o) (value o)) = NULL ∧
  layer_add_child_call (value o) NULL ∈ calls o ∧
  calls (segment_layer_update (value o) (after o)) =
    [layer_set_frame_call (value o) (GRectOf 0 0 0 NAME_HEIGHT)].
Proof.
  assert (Hv : value (prv_get_segment_type 101%N demo_world) = SegmentTypeNone)
    by reflexivity.
  split; [exact Hv |].
  destruct (segment_layer_childless demo_world (GRectOf 0 0 144 168) 101%N true [] Hv)
    as [(Hl & _ & Hc & _) (Hu & _)].
  split; [exact Hl |]. split; [exact Hc |].
  etransitivity; [exact Hu |]. vm_compute. reflexivity.
Defined.

(** X6 on the timer segment. *)
Lemma segment_layer_update_after_create_witness :
  let o := segment_layer_create (GRectOf 7 9 144 168) 100%N true demo_world in
  let o1 := segment_layer_update (value o) (after o) in
  frame_of (after o1) (layer (data_of (after o) (value o))) =
    frame_of (after o) (layer (data_of (after o) (value o))) ∧
  frame_of (after o1) (value o) = frame_of (after o) (value o).
Proof.
  cbv zeta. split; [vm_compute; reflexivity |].
  apply (segment_layer_update_after_create demo_world (GRectOf 7 9 144 168) 100%N true).
  vm_compute. reflexivity.
Defined.

(** X7 on a map widget entry, in the build without the map feature. *)
Lemma map_feature_disabled_witness :
  @ENABLE_FEATURE_MAPS demo_toolkit_without_maps = false ∧
  is_map_entry (conversation map_world 1%N) = true ∧
  value (prv_get_segment_type (H := demo_toolkit_without_maps) 1%N map_world) =
    SegmentTypeNone ∧
  List.filter is_map_call
    (calls (segment_layer_create (H := demo_toolkit_without_maps)
              (GRectOf 0 0 144 168) 1%N false map_world)) = [].
Proof.
  split; [reflexivity |]. split; [reflexivity |].
  destruct (@map_feature_disabled demo_toolkit_without_maps map_world
              (GRectOf 0 0 144 168) 1%N false 1%N eq_refl)
    as (_ & _ & Hcreate & _ & _ & Hentry).
  split; [exact (proj1 (Hentry eq_refl)) | exact Hcreate].
Defined.

(** X10 on a prompt segment and a timer segment. *)
Lemma segments_do_not_interfere_witness :
  let a := segment_layer_create (GRectOf 0 0 144 168) 7%N false demo_world in
  let b := segment_layer_create (GRectOf 0 47 144 168) 100%N true (after a) in
  let u := after b in
  let rows := [value a; value b] in
  segments u rows = true ∧
  rows !! 0 = Some (value a) ∧ rows !! 1 = Some (value b) ∧ 0 ≠ 1 ∧
  is_segment (after (segment_layer_destroy (value a) u)) (value b) = true.
Proof.
  cbv zeta.
  set (a := segment_layer_create (GRectOf 0 0 144 168) 7%N false demo_world).
  set (b := segment_layer_create (GRectOf 0 47 144 168) 100%N true (after a)).
  assert (Hsegs : segments (after b) [value a; value b] = true)
    by (vm_compute; reflexivity).
  assert (Ha : [value a; value b] !! 0 = Some (value a)) by reflexivity.
  assert (Hb : [value a; value b] !! 1 = Some (value b)) by reflexivity.
  assert (Hne : 0 ≠ 1) by lia.
  split; [exact Hsegs |]. split; [exact Ha |]. split; [exact Hb |]. split; [exact Hne |].
  destruct (segments_do_not_interfere (after b) [value a; value b] 0 1
              (value a) (value b) (GRectOf 0 0 1 1) 7%N false Hsegs Ha Hb Hne)
    as (_ & _ & _ & _ & Hd).
  exact Hd.
Defined.


(** The claim C4 as the specification states it, on a prompt under a label
    whose message view sizes itself to the height 32760: after construction
    and after an update the child's height is 32760, the label height is
    20, and the height of the segment's frame is -32756, not 32780. *)
Lemma frame_composition_counterexample :
  let o := segment_layer_create (H := toolkit_tall_views)
             (GRectOf 0 0 144 168) 7%N true demo_world in
  let seg := value o in
  let d := data_of (after o) seg in
  let u2 := after (segment_layer_update (H := toolkit_tall_views) seg (after o)) in
  let height (u : World) (p : ptr) := h (size (frame_of (H := toolkit_tall_views) u p)) in
  is_set (assistant_label_layer d) = true ∧
  height (after o) (layer d) = 32760%Z ∧
  height (after o) seg = (-32756)%Z ∧
  height u2 (layer d) = 32760%Z ∧
  height u2 seg = (-32756)%Z ∧
  (height (after o) seg =? height (after o) (layer d) + NAME_HEIGHT)%Z = false ∧
  (height u2 seg =? height u2 (layer d) + NAME_HEIGHT)%Z = false.
Proof. vm_compute. repeat split. Qed.

(** The claim C7 as the specification states it, on its own scenario (a
    timer widget under a label).  With a widget that sizes itself to the
    height 32760 the final height is -32756, not the child's height plus
    the label height; and for an input rect of height -32768 the child is
    handed the height 32748, not the input height reduced by the label
    height. *)
Lemma segment_layer_create_label_counterexample :
  let o := segment_layer_create (H := toolkit_tall_views)
             (GRectOf 0 0 144 168) 100%N true demo_world in
  let d := data_of (after o) (value o) in
  let rect' := GRectOf 0 0 144 (-32768) in
  let o' := segment_layer_create (H := demo_toolkit) rect' 100%N true demo_world in
  let height (p : ptr) := h (size (frame_of (H := toolkit_tall_views) (after o) p)) in
  (height (layer d) = 32760%Z ∧
   height (value o) = (-32756)%Z ∧
   (height (value o) =? height (layer d) + NAME_HEIGHT)%Z = false) ∧
  (List.filter is_view_create (calls o') =
     [view_create_call TimerWidget (GRectOf 0 20 144 32748) 100%N 3%N] ∧
   (32748 =? h (size rect') - NAME_HEIGHT)%Z = false).
Proof. vm_compute. repeat split. Qed.
